(** * telegram-api: the bot's update loop and its request wrappers

    A shallow embedding of [bot.go] (package [telegram]) and the
    declarations it uses from the package's type files.

    - 64-bit integers ([int64], [time.Duration]) are values of [Z] with
      Go's wrap-around written out.
    - Go strings are byte strings: [string].
    - The network helpers ([getMe], [getUpdates], [sendCommand],
      [sendFile]), [json.Unmarshal] and [embedSendOptions] live outside
      [bot.go]; the functions that call them take them as section
      variables, or read their answers from a script of rounds.
    - The poll loop is an endless [for]; it is run against a finite
      script that fixes, for each iteration, what the [select] on [stop]
      observes and what [getUpdates] answers.  Every interaction with the
      outside (select, call, log line, sleep, channel send) is recorded
      in a trace, in program order. *)

From stdpp Require Import numbers strings list gmap.
From Stdlib Require Import DecimalString DecimalZ Sorted.

Local Open Scope Z_scope.

(** ** Machine integers and durations *)

Module Int64.

Definition min_int : Z := - 2 ^ 63.
Definition max_int : Z := 2 ^ 63 - 1.

(** The value an [int64] holds after an operation whose exact result is [z]. *)
Definition wrap (z : Z) : Z := (z + 2 ^ 63) `mod` 2 ^ 64 - 2 ^ 63.

Definition in_range (z : Z) : Prop := min_int <= z <= max_int.

(** Go's [+] on [int64]. *)
Definition add (a b : Z) : Z := wrap (a + b).

(** Go's [/] on [int64]: the quotient truncated toward zero. *)
Definition div (a b : Z) : Z := wrap (a `quot` b).

End Int64.

(** [time.Second]: a [time.Duration] counts nanoseconds in an [int64]. *)
Definition Second : Z := 1000000000.

(** ** The [strings] and [strconv] functions the package calls *)

(** [strings.HasPrefix s prefix]. *)
Fixpoint HasPrefix (s prefix : string) {struct prefix} : bool :=
  match prefix, s with
  | EmptyString, _ => true
  | String c prefix', String d s' => if Ascii.eqb c d then HasPrefix s' prefix' else false
  | String _ _, EmptyString => false
  end.

(** The search behind [strings.Index], started at byte offset [i] of the
    original string: the first offset at which [substr] occurs, or -1. *)
Fixpoint Index_from (i : Z) (s substr : string) : Z :=
  if HasPrefix s substr then i
  else match s with
       | EmptyString => -1
       | String _ s' => Index_from (i + 1) s' substr
       end.

(** [strings.Index s substr]. *)
Definition Index (s substr : string) : Z := Index_from 0 s substr.

(** [s] contains [substr] as a contiguous run of bytes. *)
Definition contains (s substr : string) : Prop :=
  exists before after : string, s = before +:+ substr +:+ after.

(** [strconv.FormatInt n 10], and [strconv.Itoa]. *)
Definition FormatInt10 (n : Z) : string := NilEmpty.string_of_int (Z.to_int n).
Definition Itoa (n : Z) : string := FormatInt10 n.

(** ** Errors and channels *)

(** A Go [error] value, identified with the text its [Error()] method
    returns; the [nil] error is [None] of [option error]. *)
Definition error : Type := string.

(** What a call returning [(T, error)] hands back. *)
Inductive result (T : Type) : Type :=
| Done (v : T)
| Failed (err : error).
Arguments Done {T} v.
Arguments Failed {T} err.

(** A [chan T] value: [nil], or a reference to a channel made elsewhere. *)
Inductive chan (T : Type) : Type :=
| chan_nil
| chan_ref (addr : nat).
Arguments chan_nil {T}.
Arguments chan_ref {T} addr.

(** ** Data model (the package's type declarations) *)

(** [type ChatType string] and its constants. *)
Definition ChatType : Type := string.
Definition ChatPrivate : ChatType := "private".
Definition ChatGroup : ChatType := "group".
Definition ChatSuperGroup : ChatType := "supergroup".
Definition ChatChannel : ChatType := "channel".

Record User : Type := mkUser {
  User_ID : Z;
  User_FirstName : string;
  User_LastName : string;
  User_Username : string
}.

Record Chat : Type := mkChat {
  Chat_ID : Z;
  Chat_Type : ChatType;
  Chat_Title : string;
  Chat_FirstName : string;
  Chat_LastName : string;
  Chat_Username : string
}.

(** [type Recipient interface { Destination() string }]. *)
Class Recipient (R : Type) : Type := Destination : R -> string.

#[export] Instance User_Recipient : Recipient User :=
  fun u => Itoa (User_ID u).

#[export] Instance Chat_Recipient : Recipient Chat :=
  fun c =>
    let ret := "@" +:+ Chat_Username c in
    if negb (String.eqb (Chat_Type c) "channel") then FormatInt10 (Chat_ID c) else ret.

(** [func (c Chat) IsGroupChat() bool]. *)
Definition IsGroupChat (c : Chat) : bool := negb (String.eqb (Chat_Type c) "private").

Section Files.

(** The [File] struct is declared outside the files at hand.  [bot.go]
    uses its fields [FileID] and [filename] and its method [Exists];
    whatever else the struct carries is [file_rest]. *)
Variable FileRest : Type.

Record File : Type := mkFile {
  FileID : string;
  filename : string;
  file_rest : FileRest
}.

(** [Photo] and [Thumbnail] embed a [File]. *)
Record Photo : Type := mkPhoto {
  Photo_File : File;
  Photo_Data : string;
  Photo_Caption : string
}.

Record Thumbnail : Type := mkThumbnail {
  Thumbnail_File : File;
  Thumbnail_Width : Z;
  Thumbnail_Height : Z
}.

End Files.

Arguments mkFile {FileRest} _ _ _.
Arguments FileID {FileRest} _.
Arguments filename {FileRest} _.
Arguments file_rest {FileRest} _.
Arguments mkPhoto {FileRest} _ _ _.
Arguments Photo_File {FileRest} _.
Arguments Photo_Data {FileRest} _.
Arguments Photo_Caption {FileRest} _.
Arguments mkThumbnail {FileRest} _ _ _.
Arguments Thumbnail_File {FileRest} _.
Arguments Thumbnail_Width {FileRest} _.
Arguments Thumbnail_Height {FileRest} _.

(** ** The update loop: [Listen] and [poll] *)

Section Poll.

(** The payload structs ([Message], [Query], [Callback]) are declared
    outside the files at hand; the loop only moves them from an update to
    a channel, so they stay abstract here. *)
Variables Message Query Callback : Type.

(** [type Update struct]: [Payload], [Callback] and [Query] are pointers,
    [nil] when the update does not carry that variant. *)
Record Update : Type := mkUpdate {
  Update_ID : Z;
  Update_Payload : option Message;
  Update_Callback : option Callback;
  Update_Query : option Query
}.

Record Bot : Type := mkBot {
  Token : string;
  Identity : User;
  Messages : chan Message;
  Queries : chan Query;
  Callbacks : chan Callback;
  MultiWait : Z
}.

(** What the loop does to the outside world, one entry per action. *)
Inductive Effect : Type :=
| SelectStop (received : bool)
| GetUpdates (token : string) (offset timeout : Z)
| LogPrintln (args : list string)
| Sleep (d : Z)
| SendMessage (addr : nat) (m : Message)
| SendQuery (addr : nat) (q : Query)
| SendCallback (addr : nat) (c : Callback)
| WgDone.

(** One iteration's share of the environment: whether a value is waiting
    on [stop] when the [select] runs, and what [getUpdates] returns if it
    is called. *)
Record Round : Type := mkRound {
  stop_ready : bool;
  reply : result (list Update)
}.

(** Where a run stands after its script is used up. *)
Record Run : Type := mkRun {
  returned : bool;
  latest : Z;
  effects : list Effect
}.

Variable b : Bot.
Variable messages : chan Message.
Variable queries : chan Query.
Variable callbacks : chan Callback.
Variable timeout : Z.

(** The body of [for _, update := range updates], from the value of
    [latestUpdate] on entry to its value when the body is left.  A
    [continue] leaves the body before [latestUpdate = update.ID]. *)
Definition route (update : Update) (latestUpdate : Z) : Z * list Effect :=
  match Update_Payload update with
  | Some m =>
      match messages with
      | chan_nil => (latestUpdate, [])
      | chan_ref a => (Update_ID update, [SendMessage a m])
      end
  | None =>
      match Update_Query update with
      | Some q =>
          match queries with
          | chan_nil => (latestUpdate, [])
          | chan_ref a => (Update_ID update, [SendQuery a q])
          end
      | None =>
          match Update_Callback update with
          | Some c =>
              match callbacks with
              | chan_nil => (latestUpdate, [])
              | chan_ref a => (Update_ID update, [SendCallback a c])
              end
          | None => (Update_ID update, [])
          end
      end
  end.

(** [for _, update := range updates { ... }]. *)
Fixpoint range_updates (updates : list Update) (latestUpdate : Z) : Z * list Effect :=
  match updates with
  | [] => (latestUpdate, [])
  | update :: rest =>
      let '(latest1, out1) := route update latestUpdate in
      let '(latest2, out2) := range_updates rest latest1 in
      (latest2, out1 ++ out2)
  end.

(** The error text that marks a competing poller. *)
Definition conflict_text : string := "terminated by other long poll or webhook".

(** The [if err != nil] branch, up to its [continue]. *)
Definition on_error (err : error) : list Effect :=
  LogPrintln ["failed to get updates:"; err]
  :: (if (-1 <? Index err conflict_text)
      then [LogPrintln ["applying sleep-lock for failover instances"]; Sleep (MultiWait b)]
      else []).

(** The arguments of the [getUpdates] call. *)
Definition fetch (latestUpdate : Z) : Effect :=
  GetUpdates (Token b) (Int64.add latestUpdate 1) (Int64.div timeout Second).

(** One pass through the [for { select { ... } }] body: [None] when the
    [stop] case fires and [poll] returns, otherwise the new value of
    [latestUpdate]; with the trace of the pass. *)
Definition iteration (latestUpdate : Z) (r : Round) : option Z * list Effect :=
  if stop_ready r then (None, [SelectStop true])
  else
    match reply r with
    | Failed err =>
        (Some latestUpdate, SelectStop false :: fetch latestUpdate :: on_error err)
    | Done updates =>
        let '(latest', sends) := range_updates updates latestUpdate in
        (Some latest', SelectStop false :: fetch latestUpdate :: sends)
    end.

(** The loop from a given value of [latestUpdate], over a script. *)
Fixpoint poll_from (latestUpdate : Z) (script : list Round) : Run :=
  match script with
  | [] => mkRun false latestUpdate []
  | r :: script' =>
      match iteration latestUpdate r with
      | (None, out) => mkRun true latestUpdate out
      | (Some latest', out) =>
          let run := poll_from latest' script' in
          mkRun (returned run) (latest run) (out ++ effects run)
      end
  end.

(** The method [poll] of [Bot]: [var latestUpdate int64] starts at zero. *)
Definition poll (script : list Round) : Run := poll_from 0 script.

(** The method [Listen] of [Bot]: [defer wg.Done()] runs once [poll] has
    returned. *)
Definition Listen (script : list Round) : Run :=
  let run := poll script in
  if returned run then mkRun true (latest run) (effects run ++ [WgDone]) else run.

(** *** Reading a trace *)

(** The [getUpdates] calls of a trace: token, offset and timeout of each. *)
Definition fetches (tr : list Effect) : list (string * Z * Z) :=
  omap (fun e => match e with GetUpdates tok off t => Some (tok, off, t) | _ => None end) tr.

(** The durations slept. *)
Definition sleeps (tr : list Effect) : list Z :=
  omap (fun e => match e with Sleep d => Some d | _ => None end) tr.

(** The outcomes of the [select] on [stop]. *)
Definition selects (tr : list Effect) : list bool :=
  omap (fun e => match e with SelectStop s => Some s | _ => None end) tr.

(** What went to channels of each element type, with the channel it went to. *)
Definition sent_messages (tr : list Effect) : list (nat * Message) :=
  omap (fun e => match e with SendMessage a m => Some (a, m) | _ => None end) tr.

Definition sent_queries (tr : list Effect) : list (nat * Query) :=
  omap (fun e => match e with SendQuery a q => Some (a, q) | _ => None end) tr.

Definition sent_callbacks (tr : list Effect) : list (nat * Callback) :=
  omap (fun e => match e with SendCallback a c => Some (a, c) | _ => None end) tr.

Definition is_send (e : Effect) : bool :=
  match e with
  | SendMessage _ _ | SendQuery _ _ | SendCallback _ _ => true
  | _ => false
  end.

(** *** Reading a script *)

(** The variant the [if]/[else if] chain of the loop body picks for an
    update: the first populated one among [Payload], [Query], [Callback]. *)
Inductive Variant : Type :=
| IsMessage (m : Message)
| IsQuery (q : Query)
| IsCallback (c : Callback)
| IsNothing.

Definition classify (update : Update) : Variant :=
  match Update_Payload update, Update_Query update, Update_Callback update with
  | Some m, _, _ => IsMessage m
  | None, Some q, _ => IsQuery q
  | None, None, Some c => IsCallback c
  | None, None, None => IsNothing
  end.

Definition message_of (update : Update) : option Message :=
  match classify update with IsMessage m => Some m | _ => None end.

Definition query_of (update : Update) : option Query :=
  match classify update with IsQuery q => Some q | _ => None end.

Definition callback_of (update : Update) : option Callback :=
  match classify update with IsCallback c => Some c | _ => None end.

(** The update's variant has a sink, and that sink is [nil]. *)
Definition sink_is_nil (update : Update) : bool :=
  match classify update with
  | IsMessage _ => match messages with chan_nil => true | chan_ref _ => false end
  | IsQuery _ => match queries with chan_nil => true | chan_ref _ => false end
  | IsCallback _ => match callbacks with chan_nil => true | chan_ref _ => false end
  | IsNothing => false
  end.

(** The updates the transport hands to the loop over a script, in the
    order it returns them: the batches of the rounds that come before the
    first round in which [stop] is ready. *)
Fixpoint fetched (script : list Round) : list Update :=
  match script with
  | [] => []
  | r :: script' =>
      if stop_ready r then []
      else match reply r with
           | Done updates => updates ++ fetched script'
           | Failed _ => fetched script'
           end
  end.

(** The rounds of a script the loop gets to: those up to and including
    the first in which [stop] is ready. *)
Fixpoint rounds_run (script : list Round) : list Round :=
  match script with
  | [] => []
  | r :: script' => r :: (if stop_ready r then [] else rounds_run script')
  end.

(** The value of [latestUpdate] at the start of each iteration of a
    run, followed by its value when the script is used up. *)
Fixpoint cursors (latestUpdate : Z) (script : list Round) : list Z :=
  latestUpdate ::
  match script with
  | [] => []
  | r :: script' =>
      match iteration latestUpdate r with
      | (None, _) => []
      | (Some latest', _) => cursors latest' script'
      end
  end.

(** The server's side of the protocol for one batch: identifiers in
    ascending order, none below the requested offset. *)
Definition batch_ok (offset : Z) (updates : list Update) : Prop :=
  Sorted Z.le (map Update_ID updates) /\
  Forall (fun u => offset <= Update_ID u) updates.

(** Every batch of a run answers the offset the loop asked for. *)
Fixpoint server_contract (latestUpdate : Z) (script : list Round) : Prop :=
  match script with
  | [] => True
  | r :: script' =>
      match iteration latestUpdate r with
      | (None, _) => True
      | (Some latest', _) =>
          match reply r with
          | Done updates => batch_ok (Int64.add latestUpdate 1) updates
          | Failed _ => True
          end /\ server_contract latest' script'
      end
  end.

(** [latestUpdate] is an [int64] below the largest one at the start of
    every iteration of a run, so that [latestUpdate+1] does not wrap. *)
Fixpoint no_wrap (latestUpdate : Z) (script : list Round) : Prop :=
  match script with
  | [] => True
  | r :: script' =>
      match iteration latestUpdate r with
      | (None, _) => True
      | (Some latest', _) =>
          Int64.min_int <= latestUpdate < Int64.max_int /\ no_wrap latest' script'
      end
  end.

End Poll.

Arguments mkUpdate {Message Query Callback} _ _ _ _.
Arguments Update_ID {Message Query Callback} _.
Arguments Update_Payload {Message Query Callback} _.
Arguments Update_Callback {Message Query Callback} _.
Arguments Update_Query {Message Query Callback} _.
Arguments mkBot {Message Query Callback} _ _ _ _ _ _.
Arguments Token {Message Query Callback} _.
Arguments Identity {Message Query Callback} _.
Arguments Messages {Message Query Callback} _.
Arguments Queries {Message Query Callback} _.
Arguments Callbacks {Message Query Callback} _.
Arguments MultiWait {Message Query Callback} _.
Arguments SelectStop {Message Query Callback} _.
Arguments GetUpdates {Message Query Callback} _ _ _.
Arguments LogPrintln {Message Query Callback} _.
Arguments Sleep {Message Query Callback} _.
Arguments SendMessage {Message Query Callback} _ _.
Arguments SendQuery {Message Query Callback} _ _.
Arguments SendCallback {Message Query Callback} _ _.
Arguments WgDone {Message Query Callback}.
Arguments mkRound {Message Query Callback} _ _.
Arguments stop_ready {Message Query Callback} _.
Arguments reply {Message Query Callback} _.
Arguments mkRun {Message Query Callback} _ _ _.
Arguments returned {Message Query Callback} _.
Arguments latest {Message Query Callback} _.
Arguments effects {Message Query Callback} _.
Arguments IsMessage {Message Query Callback} _.
Arguments IsQuery {Message Query Callback} _.
Arguments IsCallback {Message Query Callback} _.
Arguments IsNothing {Message Query Callback}.
Arguments route {Message Query Callback} _ _ _ _ _.
Arguments range_updates {Message Query Callback} _ _ _ _ _.
Arguments on_error {Message Query Callback} _ _.
Arguments fetch {Message Query Callback} _ _ _.
Arguments iteration {Message Query Callback} _ _ _ _ _ _ _.
Arguments poll_from {Message Query Callback} _ _ _ _ _ _ _.
Arguments poll {Message Query Callback} _ _ _ _ _ _.
Arguments Listen {Message Query Callback} _ _ _ _ _ _.
Arguments fetches {Message Query Callback} _.
Arguments sleeps {Message Query Callback} _.
Arguments selects {Message Query Callback} _.
Arguments sent_messages {Message Query Callback} _.
Arguments sent_queries {Message Query Callback} _.
Arguments sent_callbacks {Message Query Callback} _.
Arguments is_send {Message Query Callback} _.
Arguments classify {Message Query Callback} _.
Arguments message_of {Message Query Callback} _.
Arguments query_of {Message Query Callback} _.
Arguments callback_of {Message Query Callback} _.
Arguments sink_is_nil {Message Query Callback} _ _ _ _.
Arguments fetched {Message Query Callback} _.
Arguments rounds_run {Message Query Callback} _.
Arguments cursors {Message Query Callback} _ _ _ _ _ _ _.
Arguments batch_ok {Message Query Callback} _ _.
Arguments server_contract {Message Query Callback} _ _ _ _ _ _ _.
Arguments no_wrap {Message Query Callback} _ _ _ _ _ _ _.

(** ** Construction: [NewBot] *)

Section Construction.

Variables Message Query Callback : Type.

(** [getMe], the identity request, is one of the network helpers. *)
Variable getMe : string -> result User.

(** [func NewBot(token string)], returning a bot pointer and an error:
    the pair of a possibly [nil] bot and a possibly [nil] error.  The fields the composite
    literal leaves out take their zero values. *)
Definition NewBot (token : string) : option (Bot Message Query Callback) * option error :=
  match getMe token with
  | Failed err => (None, Some err)
  | Done user => (Some (mkBot token user chan_nil chan_nil chan_nil 0), None)
  end.

End Construction.

Arguments NewBot {Message Query Callback} _ _.

(** ** Sending a photo: [SendPhoto] *)

(** How a call ends: it returns, or the runtime panics. *)
Inductive exec (T : Type) : Type :=
| Returns (v : T)
| Panics (reason : string).
Arguments Returns {T} v.
Arguments Panics {T} reason.

(** [s[i]] on a slice, with Go's bounds check. *)
Definition slice_index {A : Type} (s : list A) (i : Z) : exec A :=
  if (0 <=? i) && (i <? Z.of_nat (length s))
  then match s !! Z.to_nat i with
       | Some x => Returns x
       | None => Panics "index out of range"
       end
  else Panics "index out of range".

Section Sending.

Variable FileRest : Type.

(** [func (f File) Exists() bool], declared with [File]. *)
Variable Exists : File FileRest -> bool.

(** The [Message] struct is declared outside the files at hand;
    [SendPhoto] reads its field [Photo], a slice of thumbnails. *)
Variable Message : Type.
Variable Message_Photo : Message -> list (Thumbnail FileRest).

(** [SendOptions] is only handed on to [embedSendOptions], which fills
    the parameter map in place; here it returns the filled map. *)
Variable SendOptions : Type.
Variable embedSendOptions : gmap string string -> SendOptions -> gmap string string.

(** The transport: [sendCommand method token params] and
    [sendFile method token name path params], each answering with the
    response body or an error. *)
Variable sendCommand : string -> string -> gmap string string -> result (list Byte.byte).
Variable sendFile :
  string -> string -> string -> string -> gmap string string -> result (list Byte.byte).

(** The anonymous struct [SendPhoto] decodes the response into. *)
Record PhotoResponse : Type := mkPhotoResponse {
  Ok : bool;
  Result : Message;
  Description : string
}.

(** [json.Unmarshal] into a [PhotoResponse]. *)
Variable Unmarshal : list Byte.byte -> result PhotoResponse.

(** The bot; its update payloads other than [Message] play no part here. *)
Variables Query Callback : Type.
Variable b : Bot Message Query Callback.

(** The first half of [SendPhoto]: the parameter map it builds and the
    transport call it makes with it, [sendCommand] for a photo that
    already exists on the server and [sendFile] otherwise. *)
Definition transport_reply {R : Type} `{Recipient R} (recipient : R)
    (photo : Photo FileRest) (options : option SendOptions) : result (list Byte.byte) :=
  let params : gmap string string :=
    <["caption" := Photo_Caption photo]> (<["chat_id" := Destination recipient]> ∅) in
  let params :=
    match options with
    | Some o => embedSendOptions params o
    | None => params
    end in
  if Exists (Photo_File photo)
  then sendCommand "sendPhoto" (Token b) (<["photo" := FileID (Photo_File photo)]> params)
  else sendFile "sendPhoto" (Token b) "photo" (filename (Photo_File photo)) params.

(** The method [SendPhoto] of [Bot], taking a recipient, a pointer to a
    photo and a pointer to send options (possibly [nil]) and returning an
    error; for a non-nil [recipient] and [photo].  The result pairs the
    returned error with the photo object as the call leaves it. *)
Definition SendPhoto {R : Type} `{Recipient R} (recipient : R)
    (photo : Photo FileRest) (options : option SendOptions)
  : exec (option error * Photo FileRest) :=
  match transport_reply recipient photo options with
  | Failed err => Returns (Some err, photo)
  | Done responseJSON =>
      match Unmarshal responseJSON with
      | Failed err => Returns (Some err, photo)
      | Done responseRecieved =>
          if negb (Ok responseRecieved)
          then Returns (Some ("telebot: " +:+ Description responseRecieved), photo)
          else
            let thumbnails := Message_Photo (Result responseRecieved) in
            let filename0 := filename (Photo_File photo) in
            match slice_index thumbnails (Z.of_nat (length thumbnails) - 1) with
            | Panics reason => Panics reason
            | Returns thumb =>
                let file := Thumbnail_File thumb in
                let file := mkFile (FileID file) filename0 (file_rest file) in
                Returns (None, mkPhoto file (Photo_Data photo) (Photo_Caption photo))
            end
      end
  end.

End Sending.

Arguments mkPhotoResponse {Message} _ _ _.
Arguments transport_reply {FileRest} Exists {Message SendOptions} embedSendOptions
  sendCommand sendFile {Query Callback} b {R _} recipient photo options.
Arguments SendPhoto {FileRest} Exists {Message} Message_Photo {SendOptions} embedSendOptions
  sendCommand sendFile Unmarshal {Query Callback} b {R _} recipient photo options.
Arguments Ok {Message} _.
Arguments Result {Message} _.
Arguments Description {Message} _.

(** ** More readings of a run *)

Section Readings.

Variables Message Query Callback : Type.
Variable messages : chan Message.
Variable queries : chan Query.
Variable callbacks : chan Callback.

(** The test the loop applies to an error text before it sleeps. *)
Definition conflict (err : error) : bool := -1 <? Index err conflict_text.

(** The log lines of a trace, each the operands of one [log.Println]. *)
Definition logs (tr : list (Effect Message Query Callback)) : list (list string) :=
  omap (fun e => match e with LogPrintln args => Some args | _ => None end) tr.

(** The errors the transport hands to the loop over a script, in order:
    those of the rounds before the first round in which [stop] is ready. *)
Fixpoint failures (script : list (Round Message Query Callback)) : list error :=
  match script with
  | [] => []
  | r :: script' =>
      if stop_ready r then []
      else match reply r with
           | Done _ => failures script'
           | Failed err => err :: failures script'
           end
  end.

(** The identifiers of the updates of a list that the loop body does not
    leave through a [continue], in order. *)
Definition advancing (updates : list (Update Message Query Callback)) : list Z :=
  map Update_ID
      (List.filter (fun u => negb (sink_is_nil messages queries callbacks u)) updates).

End Readings.

Arguments logs {Message Query Callback} _.
Arguments failures {Message Query Callback} _.
Arguments advancing {Message Query Callback} _ _ _ _.

(** ** The request wrappers *)

(** [type ChatAction string] and its constants. *)
Definition ChatAction : Type := string.
Definition Typing : ChatAction := "typing".
Definition UploadingPhoto : ChatAction := "upload_photo".
Definition UploadingVideo : ChatAction := "upload_video".
Definition UploadingAudio : ChatAction := "upload_audio".
Definition UploadingDocument : ChatAction := "upload_document".
Definition RecordingVideo : ChatAction := "record_video".
Definition RecordingAudio : ChatAction := "record_audio".
Definition FindingLocation : ChatAction := "find_location".

(** The zero value [Chat{}]. *)
Definition zero_Chat : Chat := mkChat 0 "" "" "" "" "".

(** The values [DeleteMessage] puts in its [map[string]interface{}]. *)
Inductive any : Type :=
| any_string (s : string)
| any_int (n : Z).

(** The anonymous struct most wrappers decode the response into. *)
Record StatusResponse : Type := mkStatusResponse {
  Status_Ok : bool;
  Status_Description : string
}.

(** The anonymous struct [GetChat] decodes the response into. *)
Record ChatResponse : Type := mkChatResponse {
  ChatResponse_Ok : bool;
  ChatResponse_Description : string;
  ChatResponse_Result : Chat
}.

(** The methods of [Bot] that send one request each, in a module of
    their own: the method [SendMessage] shares its name with the loop's
    send on the message channel. *)
Module Wrappers.

Section Commands.

(** The bot and its payload types.  Of [Message], [ForwardMessage] reads
    the field [ID] and the identifier of what the method [Origin]
    returns; of [Callback], [AnswerCallbackQuery] reads the field [ID].
    The declarations are outside the files at hand. *)
Variables Message Query Callback : Type.
Variable b : Bot Message Query Callback.
Variable Message_ID : Message -> Z.
Variable Message_Origin_ID : Message -> Z.
Variable CallbackId : Type.
Variable Callback_ID : Callback -> CallbackId.

(** [CallbackResponse], also declared elsewhere: its field [CallbackID],
    and whatever else it carries. *)
Variable ResponseRest : Type.

Record CallbackResponse : Type := mkCallbackResponse {
  CallbackID : CallbackId;
  response_rest : ResponseRest
}.

(** What the wrappers of [bot.go] pass as [payload interface{}]. *)
Inductive Payload : Type :=
| string_params (params : gmap string string)
| any_params (params : gmap string any)
| response_payload (response : CallbackResponse).

Variable SendOptions : Type.
Variable embedSendOptions : gmap string string -> SendOptions -> gmap string string.
Variable sendCommand : string -> string -> Payload -> result (list Byte.byte).

(** [json.Unmarshal] into each of the two response structs. *)
Variable Unmarshal_status : list Byte.byte -> result StatusResponse.
Variable Unmarshal_chat : list Byte.byte -> result ChatResponse.

(** The lines every wrapper but [SendPhoto] and [GetChat] ends in, from
    [if err != nil] after the transport call to [return nil]. *)
Definition reply_error (reply : result (list Byte.byte)) : option error :=
  match reply with
  | Failed err => Some err
  | Done responseJSON =>
      match Unmarshal_status responseJSON with
      | Failed err => Some err
      | Done responseRecieved =>
          if negb (Status_Ok responseRecieved)
          then Some ("telebot: " +:+ Status_Description responseRecieved)
          else None
      end
  end.

(** The parameter map [SendMessage] and [EditMessageText] build. *)
Definition text_params {R : Type} `{Recipient R} (recipient : R) (message : string)
    (options : option SendOptions) : gmap string string :=
  let params : gmap string string :=
    <["text" := message]> (<["chat_id" := Destination recipient]> ∅) in
  match options with
  | Some o => embedSendOptions params o
  | None => params
  end.

(** The method [SendMessage] of [Bot]. *)
Definition SendMessage {R : Type} `{Recipient R} (recipient : R) (message : string)
    (options : option SendOptions) : option error :=
  reply_error
    (sendCommand "sendMessage" (Token b)
       (string_params (text_params recipient message options))).

(** The method [EditMessageText] of [Bot]. *)
Definition EditMessageText {R : Type} `{Recipient R} (recipient : R) (message : string)
    (options : option SendOptions) : option error :=
  reply_error
    (sendCommand "editMessageText" (Token b)
       (string_params (text_params recipient message options))).

(** The parameter map of [ForwardMessage]. *)
Definition forward_params {R : Type} `{Recipient R} (recipient : R) (message : Message)
  : gmap string string :=
  <["message_id" := Itoa (Message_ID message)]>
    (<["from_chat_id" := Itoa (Message_Origin_ID message)]>
       (<["chat_id" := Destination recipient]> ∅)).

(** The method [ForwardMessage] of [Bot]. *)
Definition ForwardMessage {R : Type} `{Recipient R} (recipient : R) (message : Message)
  : option error :=
  reply_error
    (sendCommand "forwardMessage" (Token b) (string_params (forward_params recipient message))).

(** The method [GetChat] of [Bot]: the chat and the error it returns. *)
Definition GetChat {R : Type} `{Recipient R} (recipient : R) : Chat * option error :=
  let params : gmap string string := <["chat_id" := Destination recipient]> ∅ in
  match sendCommand "getChat" (Token b) (string_params params) with
  | Failed err => (zero_Chat, Some err)
  | Done responseJSON =>
      match Unmarshal_chat responseJSON with
      | Failed err => (zero_Chat, Some err)
      | Done responseRecieved =>
          if negb (ChatResponse_Ok responseRecieved)
          then (zero_Chat,
                Some ("telebot: getChat failure "
                        +:+ ChatResponse_Description responseRecieved))
          else (ChatResponse_Result responseRecieved, None)
      end
  end.

(** The method [SendChatAction] of [Bot]. *)
Definition SendChatAction {R : Type} `{Recipient R} (recipient : R) (action : ChatAction)
  : option error :=
  let params : gmap string string :=
    <["action" := action]> (<["chat_id" := Destination recipient]> ∅) in
  reply_error (sendCommand "sendChatAction" (Token b) (string_params params)).

(** The method [AnswerCallbackQuery] of [Bot], for non-nil [callback] and
    [response]: the error it returns and the response object as the call
    leaves it. *)
Definition AnswerCallbackQuery (callback : Callback) (response : CallbackResponse)
  : option error * CallbackResponse :=
  let response := mkCallbackResponse (Callback_ID callback) (response_rest response) in
  (reply_error (sendCommand "answerCallbackQuery" (Token b) (response_payload response)),
   response).

(** The method [DeleteMessage] of [Bot]. *)
Definition DeleteMessage {R : Type} `{Recipient R} (recipient : R) (messageId : Z)
  : option error :=
  let params : gmap string any :=
    <["message_id" := any_int messageId]>
      (<["chat_id" := any_string (Destination recipient)]> ∅) in
  reply_error (sendCommand "deleteMessage" (Token b) (any_params params)).

End Commands.

Arguments mkCallbackResponse {CallbackId ResponseRest} _ _.
Arguments CallbackID {CallbackId ResponseRest} _.
Arguments response_rest {CallbackId ResponseRest} _.
Arguments string_params {CallbackId ResponseRest} _.
Arguments any_params {CallbackId ResponseRest} _.
Arguments response_payload {CallbackId ResponseRest} _.
Arguments text_params {SendOptions} embedSendOptions {R _} recipient message options.
Arguments SendMessage {Message Query Callback} b {CallbackId ResponseRest SendOptions}
  embedSendOptions sendCommand Unmarshal_status {R _} recipient message options.
Arguments EditMessageText {Message Query Callback} b {CallbackId ResponseRest SendOptions}
  embedSendOptions sendCommand Unmarshal_status {R _} recipient message options.
Arguments forward_params {Message} Message_ID Message_Origin_ID {R _} recipient message.
Arguments ForwardMessage {Message Query Callback} b Message_ID Message_Origin_ID
  {CallbackId ResponseRest} sendCommand Unmarshal_status {R _} recipient message.
Arguments GetChat {Message Query Callback} b {CallbackId ResponseRest}
  sendCommand Unmarshal_chat {R _} recipient.
Arguments SendChatAction {Message Query Callback} b {CallbackId ResponseRest}
  sendCommand Unmarshal_status {R _} recipient action.
Arguments AnswerCallbackQuery {Message Query Callback} b {CallbackId} Callback_ID
  {ResponseRest} sendCommand Unmarshal_status callback response.
Arguments DeleteMessage {Message Query Callback} b {CallbackId ResponseRest}
  sendCommand Unmarshal_status {R _} recipient messageId.

End Wrappers.

(** ** Sample data *)

(** A bot, and updates of each variant, with strings standing for the
    payloads; used where a run is traced on concrete input. *)
Definition sample_bot : Bot string string string :=
  mkBot "111111111:XXXXXXXXXXXXXXXXXXXXXX" (mkUser 111111111 "bot" "" "bot")
        chan_nil chan_nil chan_nil (3 * Second).

Definition message_update (id : Z) (m : string) : Update string string string :=
  mkUpdate id (Some m) None None.

Definition callback_update (id : Z) (c : string) : Update string string string :=
  mkUpdate id None (Some c) None.

Definition query_update (id : Z) (q : string) : Update string string string :=
  mkUpdate id None None (Some q).

Definition empty_update (id : Z) : Update string string string :=
  mkUpdate id None None None.

(** [poll] as a caller interested in messages only starts it: a message
    channel, [nil] for queries and callbacks, a five second timeout. *)
Definition poll_messages_only (script : list (Round string string string))
  : Run string string string :=
  poll sample_bot (chan_ref 0) chan_nil chan_nil (5 * Second) script.

(** A transport for [SendPhoto] that accepts every request and whose
    response decodes to two thumbnails; [Message] is cut down to its
    [Photo] field, no send options are in use, and a file exists on the
    server once it has an identifier. *)
Definition sample_Exists (f : File unit) : bool := negb (String.eqb (FileID f) "").

Definition sample_thumbnails : list (Thumbnail unit) :=
  [mkThumbnail (mkFile "AgADsmall" "" tt) 90 60;
   mkThumbnail (mkFile "AgADlarge" "" tt) 1280 853].

Definition sample_sendCommand (method token : string) (params : gmap string string)
  : result (list Byte.byte) := Done [].

Definition sample_sendFile (method token name path : string) (params : gmap string string)
  : result (list Byte.byte) := Done [].

Definition sample_Unmarshal (data : list Byte.byte)
  : result (PhotoResponse (list (Thumbnail unit))) :=
  Done (mkPhotoResponse true sample_thumbnails "").

(** The bot again, with thumbnails for its messages. *)
Definition sample_bot' : Bot (list (Thumbnail unit)) string string :=
  mkBot (Token sample_bot) (Identity sample_bot) chan_nil chan_nil chan_nil (3 * Second).

Definition sample_photo : Photo unit := mkPhoto (mkFile "" "cat.png" tt) "" "a cat".

Definition sample_chat : Chat := mkChat 42 ChatPrivate "" "Ann" "" "ann".

(** * Properties *)

(** ** Machine integers *)

Lemma wrap_in_range (z : Z) : Int64.in_range z -> Int64.wrap z = z.
Proof.
  unfold Int64.in_range, Int64.wrap, Int64.min_int, Int64.max_int. intros Hz.
  rewrite Z.mod_small; lia.
Qed.

Lemma add_one_below_max (z : Z) :
  Int64.min_int <= z < Int64.max_int -> Int64.add z 1 = z + 1.
Proof.
  intros Hz. unfold Int64.add. apply wrap_in_range.
  unfold Int64.in_range, Int64.min_int, Int64.max_int in *. lia.
Qed.

Lemma add_one_at_max : Int64.add Int64.max_int 1 = Int64.min_int.
Proof. reflexivity. Qed.

Lemma div_Second_in_range (d : Z) :
  Int64.in_range d -> Int64.div d Second = d `quot` Second.
Proof.
  intros Hd. unfold Int64.div. apply wrap_in_range.
  unfold Int64.in_range, Int64.min_int, Int64.max_int, Second in *.
  destruct (Z.le_gt_cases 0 d) as [Hpos | Hneg].
  - pose proof (Z.quot_pos d 1000000000 Hpos ltac:(lia)).
    pose proof (Z.quot_le_upper_bound d 1000000000 d ltac:(lia) ltac:(lia)). lia.
  - assert (Hopp : d `quot` 1000000000 = - ((- d) `quot` 1000000000)).
    { rewrite Z.quot_opp_l by lia. lia. }
    pose proof (Z.quot_pos (- d) 1000000000 ltac:(lia) ltac:(lia)).
    pose proof (Z.quot_le_upper_bound (- d) 1000000000 (- d) ltac:(lia) ltac:(lia)). lia.
Qed.

Example div_whole_seconds :
  Int64.div (5 * Second) Second = 5 /\
  Int64.div 5999999999 Second = 5 /\
  Int64.div (-1500000000) Second = -1 /\
  Int64.div 999999999 Second = 0.
Proof. repeat split. Qed.

(** ** Substring search *)

Lemma string_app_nil (s : string) : EmptyString +:+ s = s.
Proof. reflexivity. Qed.

Lemma string_app_cons (c : Ascii.ascii) (s t : string) :
  String c s +:+ t = String c (s +:+ t).
Proof. reflexivity. Qed.

Lemma HasPrefix_spec (s prefix : string) :
  HasPrefix s prefix = true <-> exists rest : string, s = prefix +:+ rest.
Proof.
  revert s. induction prefix as [| c prefix IH]; intros s; simpl.
  - split; [intros _; exists s; reflexivity | reflexivity].
  - destruct s as [| d s].
    + split; [discriminate | intros [rest Hrest]; discriminate].
    + destruct (Ascii.eqb_spec c d) as [-> | Hne].
      * rewrite IH.
        split; intros [rest Hrest]; exists rest; rewrite string_app_cons in *; congruence.
      * split; [discriminate |].
        intros [rest Hrest]. rewrite string_app_cons in Hrest. congruence.
Qed.

Lemma contains_here (s substr : string) :
  HasPrefix s substr = true -> contains s substr.
Proof.
  intros H. apply HasPrefix_spec in H as [rest ->]. exists EmptyString, rest. reflexivity.
Qed.

Lemma contains_cons (c : Ascii.ascii) (s substr : string) :
  contains (String c s) substr <-> HasPrefix (String c s) substr = true \/ contains s substr.
Proof.
  split.
  - intros [[| d before] [after Heq]].
    + left. apply HasPrefix_spec. rewrite string_app_nil in Heq. eauto.
    + right. rewrite string_app_cons in Heq. injection Heq as _ ->.
      exists before, after. reflexivity.
  - intros [H | [before [after ->]]].
    + apply contains_here, H.
    + exists (String c before), after. reflexivity.
Qed.

Lemma contains_empty (substr : string) :
  contains EmptyString substr <-> HasPrefix EmptyString substr = true.
Proof.
  split.
  - intros [[| d before] [after Heq]]; [| discriminate].
    apply HasPrefix_spec. rewrite string_app_nil in Heq. eauto.
  - apply contains_here.
Qed.

Lemma Index_from_found (i : Z) (s substr : string) :
  -1 < i -> (-1 < Index_from i s substr <-> contains s substr).
Proof.
  revert i. induction s as [| c s IH]; intros i Hi; simpl.
  - rewrite contains_empty. destruct substr; simpl; split; (lia || discriminate || reflexivity).
  - rewrite contains_cons.
    destruct (HasPrefix (String c s) substr) eqn:Hp.
    + split; [left; reflexivity | lia].
    + rewrite IH by lia. split; [right; assumption | intros [? | ?]; [discriminate | assumption]].
Qed.

(** [strings.Index] answers above -1 exactly on the strings that contain
    the substring. *)
Lemma Index_contains (s substr : string) :
  (-1 <? Index s substr) = true <-> contains s substr.
Proof.
  rewrite Z.ltb_lt. apply Index_from_found. lia.
Qed.

Lemma Index_not_contains (s substr : string) :
  (-1 <? Index s substr) = false <-> ~ contains s substr.
Proof.
  rewrite <- Index_contains. destruct (-1 <? Index s substr); split; congruence.
Qed.

Example Index_examples :
  Index "chicken" "ken" = 4 /\
  Index "chicken" "dmr" = -1 /\
  Index "chicken" "" = 0 /\
  Index "" "" = 0 /\
  Index "telebot: Conflict: terminated by other long poll or webhook" conflict_text = 19.
Proof. repeat split. Qed.

(** ** Recipients *)

Example Destination_examples :
  Destination sample_chat = "42" /\
  Destination (mkChat (-1001234) ChatChannel "News" "" "" "news") = "@news" /\
  Destination (mkChat (-1001234) ChatSuperGroup "Talk" "" "" "talk") = "-1001234" /\
  Destination (mkUser 7 "Ann" "" "ann") = "7" /\
  IsGroupChat sample_chat = false.
Proof. repeat split. Qed.

(** ** The update loop *)

Section PollFacts.

Context {Message Query Callback : Type}.
Variable b : Bot Message Query Callback.
Variable messages : chan Message.
Variable queries : chan Query.
Variable callbacks : chan Callback.
Variable timeout : Z.

Local Abbreviation route' := (route messages queries callbacks).
Local Abbreviation range' := (range_updates messages queries callbacks).
Local Abbreviation iteration' := (iteration b messages queries callbacks timeout).
Local Abbreviation poll_from' := (poll_from b messages queries callbacks timeout).
Local Abbreviation poll' := (poll b messages queries callbacks timeout).
Local Abbreviation Listen' := (Listen b messages queries callbacks timeout).
Local Abbreviation cursors' := (cursors b messages queries callbacks timeout).
Local Abbreviation fetch' := (fetch b timeout).
Local Abbreviation request c := (Token b, Int64.add c 1, Int64.div timeout Second).

(** *** One update *)

(** The loop body sends at most the update's own variant, to that
    variant's sink, and moves [latestUpdate] to the update's identifier
    unless it leaves through a [continue]. *)
Lemma route_classify (update : Update Message Query Callback) (latestUpdate : Z) :
  route' update latestUpdate =
  match classify update with
  | IsMessage m =>
      match messages with
      | chan_nil => (latestUpdate, [])
      | chan_ref a => (Update_ID update, [SendMessage a m])
      end
  | IsQuery q =>
      match queries with
      | chan_nil => (latestUpdate, [])
      | chan_ref a => (Update_ID update, [SendQuery a q])
      end
  | IsCallback c =>
      match callbacks with
      | chan_nil => (latestUpdate, [])
      | chan_ref a => (Update_ID update, [SendCallback a c])
      end
  | IsNothing => (Update_ID update, [])
  end.
Proof.
  unfold route, classify.
  destruct (Update_Payload update), (Update_Query update), (Update_Callback update);
    reflexivity.
Qed.

Lemma route_cursor (update : Update Message Query Callback) (latestUpdate : Z) :
  fst (route' update latestUpdate) =
  if sink_is_nil messages queries callbacks update then latestUpdate else Update_ID update.
Proof.
  rewrite route_classify. unfold sink_is_nil.
  destruct (classify update), messages, queries, callbacks; reflexivity.
Qed.

Lemma route_no_control (update : Update Message Query Callback) (latestUpdate : Z) :
  fetches (snd (route' update latestUpdate)) = [] /\
  sleeps (snd (route' update latestUpdate)) = [] /\
  selects (snd (route' update latestUpdate)) = [] /\
  ~ In WgDone (snd (route' update latestUpdate)).
Proof.
  rewrite route_classify.
  destruct (classify update), messages, queries, callbacks; simpl; intuition discriminate.
Qed.

Lemma route_sent (update : Update Message Query Callback) (latestUpdate : Z) :
  sent_messages (snd (route' update latestUpdate)) =
    match messages with
    | chan_nil => []
    | chan_ref a => map (pair a) (option_list (message_of update))
    end /\
  sent_queries (snd (route' update latestUpdate)) =
    match queries with
    | chan_nil => []
    | chan_ref a => map (pair a) (option_list (query_of update))
    end /\
  sent_callbacks (snd (route' update latestUpdate)) =
    match callbacks with
    | chan_nil => []
    | chan_ref a => map (pair a) (option_list (callback_of update))
    end.
Proof.
  rewrite route_classify. unfold message_of, query_of, callback_of.
  destruct (classify update), messages, queries, callbacks; repeat split; reflexivity.
Qed.

(** *** One batch *)

Lemma range_updates_cons (update : Update Message Query Callback)
    (rest : list (Update Message Query Callback)) (latestUpdate : Z) :
  range' (update :: rest) latestUpdate =
  (fst (range' rest (fst (route' update latestUpdate))),
   snd (route' update latestUpdate) ++ snd (range' rest (fst (route' update latestUpdate)))).
Proof.
  simpl. destruct (route' update latestUpdate) as [l1 o1]. simpl.
  destruct (range' rest l1) as [l2 o2]. reflexivity.
Qed.

Lemma range_updates_app (us1 us2 : list (Update Message Query Callback)) (latestUpdate : Z) :
  range' (us1 ++ us2) latestUpdate =
  (fst (range' us2 (fst (range' us1 latestUpdate))),
   snd (range' us1 latestUpdate) ++ snd (range' us2 (fst (range' us1 latestUpdate)))).
Proof.
  revert latestUpdate. induction us1 as [| u us1 IH]; intros latestUpdate.
  - simpl. destruct (range' us2 latestUpdate). reflexivity.
  - rewrite <- app_comm_cons, !range_updates_cons, IH. simpl.
    rewrite app_assoc. reflexivity.
Qed.

Lemma range_updates_no_control (us : list (Update Message Query Callback)) (latestUpdate : Z) :
  fetches (snd (range' us latestUpdate)) = [] /\
  sleeps (snd (range' us latestUpdate)) = [] /\
  selects (snd (range' us latestUpdate)) = [] /\
  ~ In WgDone (snd (range' us latestUpdate)).
Proof.
  revert latestUpdate. induction us as [| u us IH]; intros latestUpdate.
  - simpl. auto.
  - rewrite range_updates_cons. simpl.
    destruct (route_no_control u latestUpdate) as (Hf & Hs & Hc & Hw).
    destruct (IH (fst (route' u latestUpdate))) as (Hf' & Hs' & Hc' & Hw').
    unfold fetches, sleeps, selects in *. rewrite !omap_app, Hf, Hs, Hc, Hf', Hs', Hc'.
    repeat split; try reflexivity.
    rewrite in_app_iff. tauto.
Qed.

Lemma range_updates_sent (us : list (Update Message Query Callback)) (latestUpdate : Z) :
  sent_messages (snd (range' us latestUpdate)) =
    match messages with
    | chan_nil => []
    | chan_ref a => map (pair a) (omap message_of us)
    end /\
  sent_queries (snd (range' us latestUpdate)) =
    match queries with
    | chan_nil => []
    | chan_ref a => map (pair a) (omap query_of us)
    end /\
  sent_callbacks (snd (range' us latestUpdate)) =
    match callbacks with
    | chan_nil => []
    | chan_ref a => map (pair a) (omap callback_of us)
    end.
Proof.
  revert latestUpdate. induction us as [| u us IH]; intros latestUpdate.
  - simpl. destruct messages, queries, callbacks; auto.
  - rewrite range_updates_cons. simpl snd.
    destruct (route_sent u latestUpdate) as (Hm & Hq & Hc).
    destruct (IH (fst (route' u latestUpdate))) as (Hm' & Hq' & Hc').
    unfold sent_messages, sent_queries, sent_callbacks in *.
    rewrite !omap_app, Hm, Hq, Hc, Hm', Hq', Hc'. simpl.
    destruct messages, queries, callbacks;
      destruct (message_of u), (query_of u), (callback_of u); repeat split; reflexivity.
Qed.

(** *** One iteration *)

Lemma iteration_stop (latestUpdate : Z) (r : Round Message Query Callback) :
  stop_ready r = true -> iteration' latestUpdate r = (None, [SelectStop true]).
Proof. intros H. unfold iteration. rewrite H. reflexivity. Qed.

Lemma iteration_failed (latestUpdate : Z) (err : error) :
  iteration' latestUpdate (mkRound false (Failed err)) =
  (Some latestUpdate, SelectStop false :: fetch' latestUpdate :: on_error b err).
Proof. reflexivity. Qed.

Lemma iteration_done (latestUpdate : Z) (updates : list (Update Message Query Callback)) :
  iteration' latestUpdate (mkRound false (Done updates)) =
  (Some (fst (range' updates latestUpdate)),
   SelectStop false :: fetch' latestUpdate :: snd (range' updates latestUpdate)).
Proof.
  unfold iteration. simpl. destruct (range' updates latestUpdate). reflexivity.
Qed.

(** The three shapes a round can take. *)
Lemma round_cases (r : Round Message Query Callback) :
  stop_ready r = true \/
  (exists err, r = mkRound false (Failed err)) \/
  (exists updates, r = mkRound false (Done updates)).
Proof.
  destruct r as [[|] [updates | err]]; eauto.
Qed.

Lemma on_error_no_send (err : error) :
  sent_messages (on_error b err) = [] /\
  sent_queries (on_error b err) = [] /\
  sent_callbacks (on_error b err) = [] /\
  fetches (on_error b err) = [] /\
  selects (on_error b err) = [] /\
  ~ In WgDone (on_error b err).
Proof.
  unfold on_error. destruct (-1 <? Index err conflict_text); simpl; intuition discriminate.
Qed.

(** *** Runs *)

Lemma poll_from_stop (latestUpdate : Z) (r : Round Message Query Callback)
    (script : list (Round Message Query Callback)) :
  stop_ready r = true ->
  poll_from' latestUpdate (r :: script) = mkRun true latestUpdate [SelectStop true].
Proof. intros H. simpl. rewrite iteration_stop by assumption. reflexivity. Qed.

Lemma poll_from_failed (latestUpdate : Z) (err : error)
    (script : list (Round Message Query Callback)) :
  poll_from' latestUpdate (mkRound false (Failed err) :: script) =
  mkRun (returned (poll_from' latestUpdate script))
        (latest (poll_from' latestUpdate script))
        ([SelectStop false; fetch' latestUpdate] ++ on_error b err
           ++ effects (poll_from' latestUpdate script)).
Proof. reflexivity. Qed.

Lemma poll_from_done (latestUpdate : Z) (updates : list (Update Message Query Callback))
    (script : list (Round Message Query Callback)) :
  poll_from' latestUpdate (mkRound false (Done updates) :: script) =
  mkRun (returned (poll_from' (fst (range' updates latestUpdate)) script))
        (latest (poll_from' (fst (range' updates latestUpdate)) script))
        ([SelectStop false; fetch' latestUpdate] ++ snd (range' updates latestUpdate)
           ++ effects (poll_from' (fst (range' updates latestUpdate)) script)).
Proof.
  cbn [poll_from]. rewrite iteration_done. reflexivity.
Qed.

Lemma poll_from_returned (script : list (Round Message Query Callback)) (latestUpdate : Z) :
  returned (poll_from' latestUpdate script) = existsb stop_ready script.
Proof.
  revert latestUpdate. induction script as [| r script IH]; intros c; [reflexivity |].
  destruct (round_cases r) as [Hs | [[err ->] | [updates ->]]].
  - rewrite poll_from_stop by assumption. simpl. rewrite Hs. reflexivity.
  - rewrite poll_from_failed. simpl. apply IH.
  - rewrite poll_from_done. simpl. apply IH.
Qed.

Lemma poll_from_app (pre post : list (Round Message Query Callback)) (latestUpdate : Z) :
  returned (poll_from' latestUpdate pre) = false ->
  poll_from' latestUpdate (pre ++ post) =
  mkRun (returned (poll_from' (latest (poll_from' latestUpdate pre)) post))
        (latest (poll_from' (latest (poll_from' latestUpdate pre)) post))
        (effects (poll_from' latestUpdate pre)
           ++ effects (poll_from' (latest (poll_from' latestUpdate pre)) post)).
Proof.
  revert latestUpdate. induction pre as [| r pre IH]; intros c Hrun.
  - simpl. destruct (poll_from' c post). reflexivity.
  - destruct (round_cases r) as [Hs | [[err ->] | [updates ->]]].
    + rewrite poll_from_stop in Hrun by assumption. discriminate.
    + rewrite <- app_comm_cons, !poll_from_failed in *. cbn [returned latest effects] in *.
      rewrite IH by assumption. cbn [returned latest effects].
      rewrite <- !app_assoc. reflexivity.
    + rewrite <- app_comm_cons, !poll_from_done in *. cbn [returned latest effects] in *.
      rewrite IH by assumption. cbn [returned latest effects].
      rewrite <- !app_assoc. reflexivity.
Qed.

(** Everything after the round in which [stop] is ready is out of reach. *)
Lemma poll_from_rounds_run (script : list (Round Message Query Callback)) (latestUpdate : Z) :
  poll_from' latestUpdate (rounds_run script) = poll_from' latestUpdate script.
Proof.
  revert latestUpdate. induction script as [| r script IH]; intros c; [reflexivity |].
  destruct (round_cases r) as [Hs | [[err ->] | [updates ->]]].
  - cbn [rounds_run]. rewrite Hs, !poll_from_stop by assumption. reflexivity.
  - cbn [rounds_run stop_ready]. rewrite !poll_from_failed, IH. reflexivity.
  - cbn [rounds_run stop_ready]. rewrite !poll_from_done, IH. reflexivity.
Qed.

Lemma poll_from_selects (script : list (Round Message Query Callback)) (latestUpdate : Z) :
  selects (effects (poll_from' latestUpdate script)) = map stop_ready (rounds_run script).
Proof.
  revert latestUpdate. induction script as [| r script IH]; intros c; [reflexivity |].
  destruct (round_cases r) as [Hs | [[err ->] | [updates ->]]].
  - rewrite poll_from_stop by assumption. simpl. rewrite Hs. reflexivity.
  - rewrite poll_from_failed. cbn [effects rounds_run stop_ready map].
    destruct (on_error_no_send err) as (_ & _ & _ & _ & Hsel & _).
    unfold selects in *. rewrite !omap_app, Hsel, IH. reflexivity.
  - rewrite poll_from_done. cbn [effects rounds_run stop_ready map].
    destruct (range_updates_no_control updates c) as (_ & _ & Hsel & _).
    unfold selects in *. rewrite !omap_app, Hsel, IH. reflexivity.
Qed.

Lemma removelast_cons_cursors (c c' : Z) (script : list (Round Message Query Callback)) :
  removelast (c :: cursors' c' script) = c :: removelast (cursors' c' script).
Proof. destruct script; reflexivity. Qed.

Lemma poll_from_fetches (script : list (Round Message Query Callback)) (latestUpdate : Z) :
  fetches (effects (poll_from' latestUpdate script)) =
  map (fun c => request c) (removelast (cursors' latestUpdate script)).
Proof.
  revert latestUpdate. induction script as [| r script IH]; intros c; [reflexivity |].
  destruct (round_cases r) as [Hs | [[err ->] | [updates ->]]].
  - rewrite poll_from_stop by assumption. cbn [cursors].
    rewrite iteration_stop by assumption. reflexivity.
  - rewrite poll_from_failed. cbn [cursors]. rewrite iteration_failed.
    rewrite removelast_cons_cursors. cbn [effects map].
    destruct (on_error_no_send err) as (_ & _ & _ & Hf & _).
    unfold fetches in *. rewrite !omap_app, Hf, IH. reflexivity.
  - rewrite poll_from_done. cbn [cursors]. rewrite iteration_done.
    rewrite removelast_cons_cursors. cbn [effects map].
    destruct (range_updates_no_control updates c) as (Hf & _).
    unfold fetches in *. rewrite !omap_app, Hf, IH. reflexivity.
Qed.

Lemma poll_from_sent (script : list (Round Message Query Callback)) (latestUpdate : Z) :
  sent_messages (effects (poll_from' latestUpdate script)) =
    match messages with
    | chan_nil => []
    | chan_ref a => map (pair a) (omap message_of (fetched script))
    end /\
  sent_queries (effects (poll_from' latestUpdate script)) =
    match queries with
    | chan_nil => []
    | chan_ref a => map (pair a) (omap query_of (fetched script))
    end /\
  sent_callbacks (effects (poll_from' latestUpdate script)) =
    match callbacks with
    | chan_nil => []
    | chan_ref a => map (pair a) (omap callback_of (fetched script))
    end.
Proof.
  revert latestUpdate. induction script as [| r script IH]; intros c.
  - simpl. destruct messages, queries, callbacks; auto.
  - destruct (round_cases r) as [Hs | [[err ->] | [updates ->]]].
    + rewrite poll_from_stop by assumption. cbn [fetched]. rewrite Hs. simpl.
      destruct messages, queries, callbacks; auto.
    + rewrite poll_from_failed. cbn [effects fetched stop_ready reply].
      destruct (on_error_no_send err) as (Hm & Hq & Hc & _).
      destruct (IH c) as (Hm' & Hq' & Hc').
      unfold sent_messages, sent_queries, sent_callbacks in *.
      rewrite !omap_app, Hm, Hq, Hc, Hm', Hq', Hc'. auto.
    + rewrite poll_from_done. cbn [effects fetched stop_ready reply].
      destruct (range_updates_sent updates c) as (Hm & Hq & Hc).
      destruct (IH (fst (range' updates c))) as (Hm' & Hq' & Hc').
      unfold sent_messages, sent_queries, sent_callbacks in *.
      rewrite !omap_app, Hm, Hq, Hc, Hm', Hq', Hc'. simpl.
      destruct messages, queries, callbacks; rewrite ?map_app; auto.
Qed.

Lemma poll_from_no_WgDone (script : list (Round Message Query Callback)) (latestUpdate : Z) :
  ~ In WgDone (effects (poll_from' latestUpdate script)).
Proof.
  revert latestUpdate. induction script as [| r script IH]; intros c; [simpl; tauto |].
  destruct (round_cases r) as [Hs | [[err ->] | [updates ->]]].
  - rewrite poll_from_stop by assumption. simpl. intuition discriminate.
  - rewrite poll_from_failed. cbn [effects]. rewrite !in_app_iff.
    destruct (on_error_no_send err) as (_ & _ & _ & _ & _ & Hw).
    intros [H | [H | H]]; [| exact (Hw H) | exact (IH c H)].
    destruct H as [H | [H | []]]; discriminate.
  - rewrite poll_from_done. cbn [effects]. rewrite !in_app_iff.
    destruct (range_updates_no_control updates c) as (_ & _ & _ & Hw).
    intros [H | [H | H]]; [| exact (Hw H) | exact (IH _ H)].
    destruct H as [H | [H | []]]; discriminate.
Qed.

Lemma poll_from_fetch_count (script : list (Round Message Query Callback)) (latestUpdate : Z) :
  existsb stop_ready script = false ->
  length (fetches (effects (poll_from' latestUpdate script))) = length script.
Proof.
  revert latestUpdate. induction script as [| r script IH]; intros c Hno; [reflexivity |].
  simpl in Hno. apply orb_false_iff in Hno as [Hr Hno].
  destruct (round_cases r) as [Hs | [[err ->] | [updates ->]]].
  - congruence.
  - rewrite poll_from_failed. cbn [effects].
    destruct (on_error_no_send err) as (_ & _ & _ & Hf & _).
    unfold fetches in *. rewrite !omap_app, Hf. simpl. rewrite IH by assumption. reflexivity.
  - rewrite poll_from_done. cbn [effects].
    destruct (range_updates_no_control updates c) as (Hf & _).
    unfold fetches in *. rewrite !omap_app, Hf. simpl. rewrite IH by assumption. reflexivity.
Qed.

(** *** The cursor *)

Lemma cursors_head (script : list (Round Message Query Callback)) (latestUpdate : Z) :
  exists rest, cursors' latestUpdate script = latestUpdate :: rest.
Proof. destruct script; simpl; eauto. Qed.

Lemma range_updates_lower_bound (bound : Z) (updates : list (Update Message Query Callback))
    (latestUpdate : Z) :
  bound <= latestUpdate ->
  Forall (fun u => bound <= Update_ID u) updates ->
  bound <= fst (range' updates latestUpdate).
Proof.
  revert latestUpdate. induction updates as [| u updates IH]; intros c Hc Hall; [assumption |].
  rewrite range_updates_cons. cbn [fst]. inversion Hall as [| ? ? Hu Hrest]; subst.
  apply IH; [| assumption].
  rewrite route_cursor. destruct (sink_is_nil messages queries callbacks u); assumption.
Qed.

Lemma range_updates_last (updates : list (Update Message Query Callback))
    (u : Update Message Query Callback) (latestUpdate : Z) :
  sink_is_nil messages queries callbacks u = false ->
  fst (range' (updates ++ [u]) latestUpdate) = Update_ID u.
Proof.
  intros Hu. rewrite range_updates_app. cbn [fst].
  rewrite range_updates_cons. cbn [fst range_updates].
  rewrite route_cursor, Hu. reflexivity.
Qed.

(** *** The claims about the loop *)

(** C2 (as amended): over any script whose batches obey the server
    contract (identifiers ascending, none below the requested offset),
    and as long as [latestUpdate] is an [int64] below the largest one at
    the start of every iteration (so that [latestUpdate+1] does not
    wrap), the cursor never decreases from one iteration to the next;
    and after a batch whose last update is not skipped for a [nil] sink,
    the cursor is that update's identifier. *)
Theorem cursor_never_decreases (latestUpdate : Z)
    (script : list (Round Message Query Callback)) :
  server_contract b messages queries callbacks timeout latestUpdate script ->
  no_wrap b messages queries callbacks timeout latestUpdate script ->
  Sorted Z.le (cursors' latestUpdate script) /\
  forall pre updates u post,
    script = pre ++ mkRound false (Done (updates ++ [u])) :: post ->
    existsb stop_ready pre = false ->
    sink_is_nil messages queries callbacks u = false ->
    latest (poll_from' latestUpdate (pre ++ [mkRound false (Done (updates ++ [u]))]))
    = Update_ID u.
Proof.
  intros Hcontract Hwrap. split.
  - revert latestUpdate Hcontract Hwrap.
    induction script as [| r script IH]; intros c Hcontract Hwrap.
    + simpl. repeat constructor.
    + destruct (round_cases r) as [Hs | [[err ->] | [updates ->]]].
      * cbn [cursors]. rewrite iteration_stop by assumption. repeat constructor.
      * cbn [cursors server_contract no_wrap] in *. rewrite iteration_failed in *.
        destruct Hcontract as [_ Hcontract]. destruct Hwrap as [_ Hwrap].
        specialize (IH c Hcontract Hwrap).
        destruct (cursors_head script c) as [rest Hrest]. rewrite Hrest in *.
        constructor; [assumption | constructor; lia].
      * cbn [cursors server_contract no_wrap] in *. rewrite iteration_done in *.
        cbn [reply] in Hcontract.
        destruct Hcontract as [[_ Hids] Hcontract]. destruct Hwrap as [Hc Hwrap].
        specialize (IH _ Hcontract Hwrap).
        destruct (cursors_head script (fst (range' updates c))) as [rest Hrest].
        rewrite Hrest in *. constructor; [assumption | constructor].
        rewrite add_one_below_max in Hids by assumption.
        apply range_updates_lower_bound; [lia |].
        eapply Forall_impl; [eassumption |]. simpl; intros; lia.
  - intros pre updates u post _ Hpre Hu.
    rewrite poll_from_app by (rewrite poll_from_returned; assumption).
    cbn [latest]. rewrite poll_from_done. cbn [latest poll_from].
    apply range_updates_last, Hu.
Qed.

(** C3: every iteration that gets past the [select] calls the transport
    exactly once, with offset [latestUpdate+1] (in [int64] arithmetic,
    which is the mathematical successor below the largest [int64]) and
    with the timeout divided by [time.Second], truncated to whole
    seconds; over a run, the calls are those of the successive cursor
    values; and the first call of [poll] asks for offset 1. *)
Theorem getUpdates_arguments (latestUpdate : Z)
    (script : list (Round Message Query Callback)) :
  (forall rep, fetches (snd (iteration' latestUpdate (mkRound false rep)))
               = [request latestUpdate]) /\
  fetches (effects (poll_from' latestUpdate script))
  = map (fun c => request c) (removelast (cursors' latestUpdate script)) /\
  (Int64.min_int <= latestUpdate < Int64.max_int ->
   Int64.add latestUpdate 1 = latestUpdate + 1) /\
  (Int64.in_range timeout -> Int64.div timeout Second = timeout `quot` 1000000000) /\
  (forall rep, head (fetches (effects (poll' (mkRound false rep :: script))))
               = Some (Token b, 1, Int64.div timeout Second)).
Proof.
  repeat split.
  - intros [updates | err].
    + rewrite iteration_done. cbn [snd].
      destruct (range_updates_no_control updates latestUpdate) as (Hf & _).
      change (fetches (SelectStop false :: fetch' latestUpdate :: ?l))
        with (request latestUpdate :: fetches l). rewrite Hf. reflexivity.
    + rewrite iteration_failed. cbn [snd].
      destruct (on_error_no_send err) as (_ & _ & _ & Hf & _).
      change (fetches (SelectStop false :: fetch' latestUpdate :: ?l))
        with (request latestUpdate :: fetches l). rewrite Hf. reflexivity.
  - apply poll_from_fetches.
  - apply add_one_below_max.
  - apply div_Second_in_range.
  - intros [updates | err]; unfold poll.
    + rewrite poll_from_done. reflexivity.
    + rewrite poll_from_failed. reflexivity.
Qed.

(** C4: an iteration whose transport call fails leaves [latestUpdate]
    as it was, does not return, sends nothing to any sink, and hands over
    to the next iteration, whose call asks for the same offset. *)
Theorem transport_error_keeps_cursor (latestUpdate : Z) (err : error)
    (script : list (Round Message Query Callback)) :
  fst (iteration' latestUpdate (mkRound false (Failed err))) = Some latestUpdate /\
  sent_messages (snd (iteration' latestUpdate (mkRound false (Failed err)))) = [] /\
  sent_queries (snd (iteration' latestUpdate (mkRound false (Failed err)))) = [] /\
  sent_callbacks (snd (iteration' latestUpdate (mkRound false (Failed err)))) = [] /\
  poll_from' latestUpdate (mkRound false (Failed err) :: script)
  = mkRun (returned (poll_from' latestUpdate script))
          (latest (poll_from' latestUpdate script))
          (snd (iteration' latestUpdate (mkRound false (Failed err)))
             ++ effects (poll_from' latestUpdate script)) /\
  (forall rep,
      fetches (effects (poll_from' latestUpdate
                          (mkRound false (Failed err) :: mkRound false rep :: script)))
      = request latestUpdate :: request latestUpdate
          :: fetches (effects (poll_from' (latest (poll_from' latestUpdate [mkRound false rep]))
                                  script))).
Proof.
  destruct (on_error_no_send err) as (Hm & Hq & Hc & Hf & _).
  rewrite iteration_failed. cbn [fst snd].
  repeat split; try assumption.
  intros rep. rewrite poll_from_failed. cbn [effects].
  unfold fetches in *. rewrite !omap_app, Hf. cbn [omap fetch app option_bind mbind].
  f_equal.
  destruct rep as [updates | err'].
  - rewrite !poll_from_done. cbn [effects latest poll_from].
    destruct (range_updates_no_control updates latestUpdate) as (Hf' & _).
    unfold fetches in Hf'. rewrite !omap_app, Hf'. reflexivity.
  - rewrite !poll_from_failed. cbn [effects latest poll_from].
    destruct (on_error_no_send err') as (_ & _ & _ & Hf' & _).
    unfold fetches in Hf'. rewrite !omap_app, Hf'. reflexivity.
Qed.

(** C5: after a failed transport call the loop sleeps, for the
    configured [MultiWait], exactly when the error text contains
    "terminated by other long poll or webhook"; any other error, and any
    successful call, goes on without a sleep; and a conflict error
    followed by a success gives one sleep, placed before the next call,
    which asks for the same offset as the failed one. *)
Theorem cooldown_only_on_conflict (latestUpdate : Z) (err : error) :
  (contains err conflict_text ->
   sleeps (snd (iteration' latestUpdate (mkRound false (Failed err)))) = [MultiWait b]) /\
  (~ contains err conflict_text ->
   sleeps (snd (iteration' latestUpdate (mkRound false (Failed err)))) = []) /\
  (forall d,
      In (Sleep d) (snd (iteration' latestUpdate (mkRound false (Failed err))))
      <-> d = MultiWait b /\ contains err conflict_text) /\
  (forall updates,
      sleeps (snd (iteration' latestUpdate (mkRound false (Done updates)))) = []) /\
  (contains err conflict_text ->
   forall updates,
     effects (poll_from' latestUpdate
                [mkRound false (Failed err); mkRound false (Done updates)])
     = [SelectStop false; fetch' latestUpdate;
        LogPrintln ["failed to get updates:"; err];
        LogPrintln ["applying sleep-lock for failover instances"];
        Sleep (MultiWait b);
        SelectStop false; fetch' latestUpdate]
         ++ snd (range' updates latestUpdate)).
Proof.
  rewrite iteration_failed. cbn [snd]. unfold on_error.
  split.
  { intros Hin. apply Index_contains in Hin. rewrite Hin. reflexivity. }
  split.
  { intros Hout. apply Index_not_contains in Hout. rewrite Hout. reflexivity. }
  split.
  { intros d. destruct (-1 <? Index err conflict_text) eqn:Hidx; simpl.
    - apply Index_contains in Hidx. split.
      + intros [H | [H | [H | [H | [H | []]]]]]; try discriminate.
        split; [congruence | assumption].
      + intros [-> _]. auto 6.
    - apply Index_not_contains in Hidx. split.
      + intros [H | [H | [H | []]]]; discriminate.
      + intros [_ Hin]. contradiction. }
  split.
  { intros updates. rewrite iteration_done. cbn [snd].
    destruct (range_updates_no_control updates latestUpdate) as (_ & Hs & _).
    unfold sleeps in *. simpl. assumption. }
  intros Hin updates. apply Index_contains in Hin.
  rewrite poll_from_failed, poll_from_done. cbn [effects poll_from].
  unfold on_error. rewrite Hin, app_nil_r. reflexivity.
Qed.

(** C6: the loop body tries [Payload], then [Query], then [Callback],
    and sends to at most one sink: a populated [Payload] wins whatever
    else is populated, a populated [Query] wins over [Callback]; an
    update with no variant populated is sent nowhere, nothing fails, and
    [latestUpdate] still becomes its identifier, also at the end of a
    batch. *)
Theorem classifier_priority (id latestUpdate : Z) :
  (forall m cb q,
      route messages queries callbacks (mkUpdate id (Some m) cb q) latestUpdate
      = match messages with
        | chan_nil => (latestUpdate, [])
        | chan_ref a => (id, [SendMessage a m])
        end) /\
  (forall q cb,
      route messages queries callbacks (mkUpdate id None cb (Some q)) latestUpdate
      = match queries with
        | chan_nil => (latestUpdate, [])
        | chan_ref a => (id, [SendQuery a q])
        end) /\
  (forall cb,
      route messages queries callbacks (mkUpdate id None (Some cb) None) latestUpdate
      = match callbacks with
        | chan_nil => (latestUpdate, [])
        | chan_ref a => (id, [SendCallback a cb])
        end) /\
  route messages queries callbacks (mkUpdate id None None None) latestUpdate = (id, []) /\
  (forall update,
      (length (snd (route messages queries callbacks update latestUpdate)) <= 1)%nat) /\
  (forall updates,
      range_updates messages queries callbacks
        (updates ++ [mkUpdate id None None None]) latestUpdate
      = (id, snd (range_updates messages queries callbacks updates latestUpdate))).
Proof.
  repeat split.
  - intros update. rewrite route_classify.
    destruct (classify update), messages, queries, callbacks; simpl; lia.
  - intros updates. rewrite range_updates_app. simpl. rewrite app_nil_r. reflexivity.
Qed.

(** C7: each sink that is not [nil] receives, once each and in the order
    the transport returned them (within a batch and from batch to batch),
    exactly the updates of its variant; a [nil] sink receives nothing. *)
Theorem sinks_receive_in_order (latestUpdate : Z)
    (script : list (Round Message Query Callback)) :
  sent_messages (effects (poll_from' latestUpdate script)) =
    match messages with
    | chan_nil => []
    | chan_ref a => map (pair a) (omap message_of (fetched script))
    end /\
  sent_queries (effects (poll_from' latestUpdate script)) =
    match queries with
    | chan_nil => []
    | chan_ref a => map (pair a) (omap query_of (fetched script))
    end /\
  sent_callbacks (effects (poll_from' latestUpdate script)) =
    match callbacks with
    | chan_nil => []
    | chan_ref a => map (pair a) (omap callback_of (fetched script))
    end.
Proof. apply poll_from_sent. Qed.

(** C8: [poll] returns exactly when some round finds [stop] ready; the
    [select] runs once per iteration, ahead of the transport call; once
    [stop] is ready no further call is made, whatever the script holds
    after that; [Listen] signals the wait group after [poll] has
    returned, and only then; and over any script in which [stop] is never
    ready the loop is still running, having made one call per round. *)
Theorem poll_returns_only_on_stop (latestUpdate : Z)
    (script : list (Round Message Query Callback)) :
  returned (poll_from' latestUpdate script) = existsb stop_ready script /\
  selects (effects (poll_from' latestUpdate script)) = map stop_ready (rounds_run script) /\
  (forall r, exists rest,
      snd (iteration' latestUpdate r) = SelectStop (stop_ready r) :: rest /\
      selects rest = [] /\
      fetches rest = if stop_ready r then [] else [request latestUpdate]) /\
  (forall pre rep post,
      existsb stop_ready pre = false ->
      poll_from' latestUpdate (pre ++ mkRound true rep :: post)
      = mkRun true (latest (poll_from' latestUpdate pre))
              (effects (poll_from' latestUpdate pre) ++ [SelectStop true]) /\
      length (fetches (effects (poll_from' latestUpdate (pre ++ mkRound true rep :: post))))
      = length pre) /\
  (existsb stop_ready script = false ->
   returned (poll_from' latestUpdate script) = false /\
   length (fetches (effects (poll_from' latestUpdate script))) = length script) /\
  returned (Listen' script) = existsb stop_ready script /\
  effects (Listen' script)
  = effects (poll' script) ++ (if existsb stop_ready script then [WgDone] else []) /\
  ~ In WgDone (effects (poll' script)).
Proof.
  split; [apply poll_from_returned |].
  split; [apply poll_from_selects |].
  split.
  { intros r. destruct (round_cases r) as [Hs | [[err ->] | [updates ->]]].
    - rewrite iteration_stop, Hs by assumption. exists []. auto.
    - rewrite iteration_failed. cbn [snd stop_ready].
      destruct (on_error_no_send err) as (_ & _ & _ & Hf & Hsel & _).
      exists (fetch' latestUpdate :: on_error b err). split; [reflexivity |].
      change (selects (fetch' latestUpdate :: ?l)) with (selects l).
      change (fetches (fetch' latestUpdate :: ?l)) with (request latestUpdate :: fetches l).
      rewrite Hf, Hsel. auto.
    - rewrite iteration_done. cbn [snd stop_ready].
      destruct (range_updates_no_control updates latestUpdate) as (Hf & _ & Hsel & _).
      exists (fetch' latestUpdate :: snd (range' updates latestUpdate)).
      split; [reflexivity |].
      change (selects (fetch' latestUpdate :: ?l)) with (selects l).
      change (fetches (fetch' latestUpdate :: ?l)) with (request latestUpdate :: fetches l).
      rewrite Hf, Hsel. auto. }
  split.
  { intros pre rep post Hpre.
    assert (Hrun : poll_from' latestUpdate (pre ++ mkRound true rep :: post)
                   = mkRun true (latest (poll_from' latestUpdate pre))
                       (effects (poll_from' latestUpdate pre) ++ [SelectStop true])).
    { rewrite poll_from_app by (rewrite poll_from_returned; assumption).
      rewrite poll_from_stop by reflexivity. reflexivity. }
    split; [exact Hrun |].
    rewrite Hrun. cbn [effects]. unfold fetches. rewrite omap_app. simpl.
    rewrite app_nil_r. apply poll_from_fetch_count, Hpre. }
  split.
  { intros Hno. split; [rewrite poll_from_returned; assumption |].
    apply poll_from_fetch_count, Hno. }
  unfold Listen, poll. rewrite poll_from_returned.
  destruct (existsb stop_ready script) eqn:Hstop.
  - repeat split. apply poll_from_no_WgDone.
  - rewrite app_nil_r. repeat split.
    + rewrite poll_from_returned. assumption.
    + apply poll_from_no_WgDone.
Qed.

End PollFacts.

(** *** The loop on concrete input *)

(** C1: with only the message sink non-nil, the batch
    [{1, Message}; {2, CallbackPress}; {3, InlineQuery}] puts message 1 on the
    message sink and nothing anywhere else, but leaves [latestUpdate] at
    1, not 3: the [continue] taken for a [nil] sink skips the assignment.
    The next call therefore asks for offset 2 again, and keeps doing so
    while the transport answers with the skipped updates.  Updates 2 and
    3 with no variant populated, in the same place, do move it to 3. *)
Theorem null_sink_stalls_cursor :
  poll_messages_only
    [mkRound false
       (Done [message_update 1 "m1"; callback_update 2 "c2"; query_update 3 "q3"])]
  = mkRun false 1
      [SelectStop false;
       GetUpdates "111111111:XXXXXXXXXXXXXXXXXXXXXX" 1 5;
       SendMessage 0%nat "m1"] /\
  fetches (effects (poll_messages_only
    [mkRound false
       (Done [message_update 1 "m1"; callback_update 2 "c2"; query_update 3 "q3"]);
     mkRound false (Done [callback_update 2 "c2"; query_update 3 "q3"]);
     mkRound false (Done [callback_update 2 "c2"; query_update 3 "q3"])]))
  = [("111111111:XXXXXXXXXXXXXXXXXXXXXX", 1, 5);
     ("111111111:XXXXXXXXXXXXXXXXXXXXXX", 2, 5);
     ("111111111:XXXXXXXXXXXXXXXXXXXXXX", 2, 5)] /\
  latest (poll_messages_only
    [mkRound false (Done [message_update 1 "m1"; empty_update 2; empty_update 3])])
  = 3.
Proof. repeat split. Qed.

(** A conflict error, then a batch, then [stop]: the whole trace of
    [Listen]. *)
Example Listen_conflict_then_batch_then_stop :
  Listen sample_bot (chan_ref 0) chan_nil (chan_ref 1) (5 * Second)
    [mkRound false (Failed "telebot: Conflict: terminated by other long poll or webhook");
     mkRound false (Done [message_update 8 "hello"; callback_update 9 "press"]);
     mkRound true (Done [message_update 10 "late"])]
  = mkRun true 9
      [SelectStop false;
       GetUpdates "111111111:XXXXXXXXXXXXXXXXXXXXXX" 1 5;
       LogPrintln ["failed to get updates:";
                   "telebot: Conflict: terminated by other long poll or webhook"];
       LogPrintln ["applying sleep-lock for failover instances"];
       Sleep 3000000000;
       SelectStop false;
       GetUpdates "111111111:XXXXXXXXXXXXXXXXXXXXXX" 1 5;
       SendMessage 0%nat "hello";
       SendCallback 1%nat "press";
       SelectStop true;
       WgDone].
Proof. reflexivity. Qed.

(** C2, as stated, fails on two inputs that obey the server contract.
    With a [nil] callback sink, the batch [{1, Message}; {2, CallbackPress}]
    leaves the cursor at 1 although the last update processed is 2.
    And once the cursor is the largest [int64], the requested offset
    wraps to the smallest one, so a batch holding identifier 5 obeys the
    contract and takes the cursor down. *)
Lemma cursor_claim_counterexample :
  (server_contract sample_bot (chan_ref 0) chan_nil chan_nil (5 * Second) 0
     [mkRound false (Done [message_update 1 "m1"; callback_update 2 "c2"])] /\
   latest (poll_messages_only
     [mkRound false (Done [message_update 1 "m1"; callback_update 2 "c2"])]) = 1 /\
   latest (poll_messages_only
     [mkRound false (Done [message_update 1 "m1"; callback_update 2 "c2"])])
   <> Update_ID (callback_update 2 "c2")) /\
  (server_contract sample_bot (chan_ref 0) chan_nil chan_nil (5 * Second) 0
     [mkRound false (Done [message_update Int64.max_int "m1"]);
      mkRound false (Done [message_update 5 "m2"])] /\
   cursors sample_bot (chan_ref 0) chan_nil chan_nil (5 * Second) 0
     [mkRound false (Done [message_update Int64.max_int "m1"]);
      mkRound false (Done [message_update 5 "m2"])]
   = [0; 9223372036854775807; 5] /\
   ~ Sorted Z.le
       (cursors sample_bot (chan_ref 0) chan_nil chan_nil (5 * Second) 0
          [mkRound false (Done [message_update Int64.max_int "m1"]);
           mkRound false (Done [message_update 5 "m2"])])).
Proof.
  split; split.
  - simpl. unfold batch_ok. simpl. repeat split; repeat constructor; vm_compute; discriminate.
  - split; [reflexivity | vm_compute; discriminate].
  - simpl. unfold batch_ok. simpl. repeat split; repeat constructor; vm_compute; discriminate.
  - split; [reflexivity |].
    change (cursors _ _ _ _ _ _ _) with [0; 9223372036854775807; 5].
    intros Hsorted. inversion Hsorted as [| ? ? Htail _]; subst.
    inversion Htail as [| ? ? _ Hhd]; subst.
    inversion Hhd as [| ? ? Hle]; subst. lia.
Qed.

(** The amended C2 at work: three rounds (a batch, a failed call, a
    batch ending in an update with no variant) obey the contract, and the
    cursor goes 0, 2, 2, 7. *)
Lemma cursor_never_decreases_witness :
  Sorted Z.le
    (cursors sample_bot (chan_ref 0) chan_nil chan_nil (5 * Second) 0
       [mkRound false (Done [message_update 1 "m1"; message_update 2 "m2"]);
        mkRound false (Failed "timeout");
        mkRound false (Done [callback_update 4 "c4"; empty_update 7])]) /\
  latest (poll_from sample_bot (chan_ref 0) chan_nil chan_nil (5 * Second) 0
            ([mkRound false (Done [message_update 1 "m1"; message_update 2 "m2"]);
              mkRound false (Failed "timeout")]
             ++ [mkRound false (Done ([callback_update 4 "c4"] ++ [empty_update 7]))]))
  = 7.
Proof.
  assert (Hcontract :
    server_contract sample_bot (chan_ref 0) chan_nil chan_nil (5 * Second) 0
      [mkRound false (Done [message_update 1 "m1"; message_update 2 "m2"]);
       mkRound false (Failed "timeout");
       mkRound false (Done [callback_update 4 "c4"; empty_update 7])]).
  { simpl. unfold batch_ok. simpl.
    repeat split; repeat constructor; vm_compute; discriminate. }
  assert (Hwrap :
    no_wrap sample_bot (chan_ref 0) chan_nil chan_nil (5 * Second) 0
      [mkRound false (Done [message_update 1 "m1"; message_update 2 "m2"]);
       mkRound false (Failed "timeout");
       mkRound false (Done [callback_update 4 "c4"; empty_update 7])]).
  { simpl. repeat split; vm_compute; congruence. }
  destruct (cursor_never_decreases sample_bot (chan_ref 0) chan_nil chan_nil (5 * Second)
              0 _ Hcontract Hwrap) as [Hsorted Hlast].
  split; [exact Hsorted |].
  exact (Hlast [mkRound false (Done [message_update 1 "m1"; message_update 2 "m2"]);
                mkRound false (Failed "timeout")]
               [callback_update 4 "c4"] (empty_update 7) []
               eq_refl eq_refl eq_refl).
Defined.

(** ** Construction *)

Section ConstructionFacts.

Context {Message Query Callback : Type}.
Variable getMe : string -> result User.

(** C9: [NewBot] hands back the error of the identity request, and no
    bot, exactly when that request fails; when it succeeds, [NewBot]
    hands back no error and a bot holding the given token and the
    identity the request returned. *)
Theorem NewBot_fails_with_getMe (token : string) :
  (forall err,
      getMe token = Failed err
      <-> @NewBot Message Query Callback getMe token = (None, Some err)) /\
  (forall user,
      getMe token = Done user
      <-> exists bot,
            @NewBot Message Query Callback getMe token = (Some bot, None) /\
            Token bot = token /\ Identity bot = user) /\
  ((fst (@NewBot Message Query Callback getMe token) = None /\
    snd (@NewBot Message Query Callback getMe token) <> None)
   <-> exists err, getMe token = Failed err) /\
  (fst (@NewBot Message Query Callback getMe token) = None
   <-> snd (@NewBot Message Query Callback getMe token) <> None).
Proof.
  unfold NewBot. destruct (getMe token) as [user | err]; cbn [fst snd].
  - split; [| split; [| split]].
    + intros err. split; discriminate.
    + intros user'. split.
      * intros [= ->]. eexists. split; [reflexivity | split; reflexivity].
      * intros (bot & [= <-] & _ & Hid). cbn [Identity] in Hid. congruence.
    + split; [intros [Hnone _]; discriminate | intros [err Herr]; discriminate].
    + split; [discriminate | intros Hsome; contradiction].
  - split; [| split; [| split]].
    + intros err'. split; congruence.
    + intros user. split; [discriminate | intros (bot & Hbot & _); discriminate].
    + split; [eauto | intros _; split; [reflexivity | discriminate]].
    + split; [discriminate | reflexivity].
Qed.

End ConstructionFacts.

(** ** Sending a photo *)

Lemma slice_index_last {A : Type} (s : list A) :
  slice_index s (Z.of_nat (length s) - 1) =
  match last s with
  | Some x => Returns x
  | None => Panics "index out of range"
  end.
Proof.
  unfold slice_index. destruct s as [| x s]; [reflexivity |].
  rewrite last_lookup. cbn [length Nat.pred].
  replace (Z.of_nat (S (length s)) - 1) with (Z.of_nat (length s)) by lia.
  rewrite Nat2Z.id.
  replace (0 <=? Z.of_nat (length s)) with true by (symmetry; apply Z.leb_le; lia).
  replace (Z.of_nat (length s) <? Z.of_nat (S (length s))) with true
    by (symmetry; apply Z.ltb_lt; lia).
  reflexivity.
Qed.

Lemma last_None_nil {A : Type} (s : list A) : last s = None <-> s = [].
Proof.
  split; [| intros ->; reflexivity].
  destruct s as [| x s]; [reflexivity |].
  rewrite last_lookup. cbn [length Nat.pred]. intros Hnone.
  apply lookup_ge_None in Hnone. cbn [length] in Hnone. lia.
Qed.

Section SendingFacts.

Context {FileRest Message SendOptions Query Callback : Type}.
Variable Exists : File FileRest -> bool.
Variable Message_Photo : Message -> list (Thumbnail FileRest).
Variable embedSendOptions : gmap string string -> SendOptions -> gmap string string.
Variable sendCommand : string -> string -> gmap string string -> result (list Byte.byte).
Variable sendFile :
  string -> string -> string -> string -> gmap string string -> result (list Byte.byte).
Variable Unmarshal : list Byte.byte -> result (PhotoResponse Message).
Variable b : Bot Message Query Callback.

Local Abbreviation transport_reply' :=
  (transport_reply Exists embedSendOptions sendCommand sendFile b).
Local Abbreviation SendPhoto' :=
  (SendPhoto Exists Message_Photo embedSendOptions sendCommand sendFile Unmarshal b).

(** C10: when the transport call succeeds and the response decodes with
    [Ok] true, [SendPhoto] returns no error and leaves in [photo.File]
    the [File] of the last thumbnail of the response, with
    [photo.filename] (and the rest of the photo) as before; unless the
    response has no thumbnail, in which case indexing the last element is
    out of range and the call panics. *)
Theorem SendPhoto_takes_last_thumbnail {R : Type} `{Recipient R} (recipient : R)
    (photo : Photo FileRest) (options : option SendOptions)
    (responseJSON : list Byte.byte) (response : PhotoResponse Message) :
  transport_reply' recipient photo options = Done responseJSON ->
  Unmarshal responseJSON = Done response ->
  Ok response = true ->
  SendPhoto' recipient photo options =
    match last (Message_Photo (Result response)) with
    | Some thumb =>
        Returns (None,
                 mkPhoto (mkFile (FileID (Thumbnail_File thumb))
                                 (filename (Photo_File photo))
                                 (file_rest (Thumbnail_File thumb)))
                         (Photo_Data photo) (Photo_Caption photo))
    | None => Panics "index out of range"
    end /\
  ((exists reason, SendPhoto' recipient photo options = Panics reason)
   <-> Message_Photo (Result response) = []).
Proof.
  intros Hreply Hdecode Hok.
  assert (Hrun : SendPhoto' recipient photo options =
                 match last (Message_Photo (Result response)) with
                 | Some thumb =>
                     Returns (None,
                              mkPhoto (mkFile (FileID (Thumbnail_File thumb))
                                              (filename (Photo_File photo))
                                              (file_rest (Thumbnail_File thumb)))
                                      (Photo_Data photo) (Photo_Caption photo))
                 | None => Panics "index out of range"
                 end).
  { unfold SendPhoto. rewrite Hreply, Hdecode, Hok. cbn [negb].
    rewrite slice_index_last.
    destruct (last (Message_Photo (Result response))); reflexivity. }
  split; [exact Hrun |].
  rewrite Hrun, <- last_None_nil.
  destruct (last (Message_Photo (Result response))).
  - split; [intros [reason Hp]; discriminate | discriminate].
  - split; [reflexivity | eauto].
Qed.

End SendingFacts.

(** C10 on the sample transport: sending [cat.png] for the first time
    leaves the photo with the identifier of the larger thumbnail and its
    file name unchanged. *)
Lemma SendPhoto_takes_last_thumbnail_witness :
  SendPhoto sample_Exists (fun m => m) (fun p (_ : unit) => p)
    sample_sendCommand sample_sendFile sample_Unmarshal sample_bot'
    sample_chat sample_photo None
  = Returns (None, mkPhoto (mkFile "AgADlarge" "cat.png" tt) "" "a cat").
Proof.
  exact (proj1 (SendPhoto_takes_last_thumbnail sample_Exists (fun m => m)
                  (fun p (_ : unit) => p)
                  sample_sendCommand sample_sendFile sample_Unmarshal sample_bot'
                  sample_chat sample_photo None []
                  (mkPhotoResponse true sample_thumbnails "")
                  eq_refl eq_refl eq_refl)).
Defined.

(** ** More about the update loop *)

Section PollRuns.

Context {Message Query Callback : Type}.
Variable b : Bot Message Query Callback.
Variable messages : chan Message.
Variable queries : chan Query.
Variable callbacks : chan Callback.
Variable timeout : Z.

Local Abbreviation range' := (range_updates messages queries callbacks).
Local Abbreviation poll_from' := (poll_from b messages queries callbacks timeout).
Local Abbreviation advancing' := (advancing messages queries callbacks).

Lemma default_last_cons {A : Type} (d x : A) (l : list A) :
  default d (last (x :: l)) = default x (last l).
Proof. rewrite last_cons. destruct (last l); reflexivity. Qed.

Lemma default_last_app {A : Type} (d : A) (l1 l2 : list A) :
  default d (last (l1 ++ l2)) = default (default d (last l1)) (last l2).
Proof. rewrite last_app. destruct (last l2); reflexivity. Qed.

Lemma advancing_app (us1 us2 : list (Update Message Query Callback)) :
  advancing' (us1 ++ us2) = advancing' us1 ++ advancing' us2.
Proof. unfold advancing. rewrite List.filter_app, map_app. reflexivity. Qed.

Lemma range_updates_cursor (updates : list (Update Message Query Callback))
    (latestUpdate : Z) :
  fst (range' updates latestUpdate) = default latestUpdate (last (advancing' updates)).
Proof.
  revert latestUpdate. induction updates as [| u updates IH]; intros c; [reflexivity |].
  rewrite range_updates_cons. cbn [fst]. rewrite IH, route_cursor.
  unfold advancing. cbn [List.filter].
  destruct (sink_is_nil messages queries callbacks u); cbn [negb map];
    [reflexivity | rewrite default_last_cons; reflexivity].
Qed.

(** X1: whatever the script, the cursor a run ends with is the
    identifier of the last fetched update that the loop body did not
    leave through a [continue] (nil sink), and the starting value when
    there is no such update. *)
Theorem cursor_is_last_advancing (latestUpdate : Z)
    (script : list (Round Message Query Callback)) :
  latest (poll_from' latestUpdate script)
  = default latestUpdate (last (advancing messages queries callbacks (fetched script))).
Proof.
  revert latestUpdate. induction script as [| r script IH]; intros c; [reflexivity |].
  destruct (round_cases r) as [Hs | [[err ->] | [updates ->]]].
  - rewrite poll_from_stop by assumption. cbn [fetched]. rewrite Hs. reflexivity.
  - rewrite poll_from_failed. cbn [latest fetched stop_ready reply]. apply IH.
  - rewrite poll_from_done. cbn [latest fetched stop_ready reply].
    rewrite IH, advancing_app, default_last_app, range_updates_cursor. reflexivity.
Qed.

Lemma on_error_sleeps_logs (err : error) :
  sleeps (on_error b err) = (if conflict err then [MultiWait b] else []) /\
  logs (on_error b err)
  = ["failed to get updates:"; err]
      :: (if conflict err then [["applying sleep-lock for failover instances"]] else []).
Proof. unfold on_error, conflict. destruct (-1 <? Index err conflict_text); auto. Qed.

Lemma range_updates_no_logs (updates : list (Update Message Query Callback))
    (latestUpdate : Z) :
  logs (snd (range' updates latestUpdate)) = [].
Proof.
  revert latestUpdate. induction updates as [| u updates IH]; intros c; [reflexivity |].
  rewrite range_updates_cons. cbn [snd]. unfold logs in *. rewrite omap_app, IH, app_nil_r.
  rewrite route_classify.
  destruct (classify u), messages, queries, callbacks; reflexivity.
Qed.

(** X2: over a whole run the loop sleeps once, for [MultiWait], per
    failed call whose error text contains the conflict text, and at no
    other time: the sleeps of the trace are one [MultiWait] for each such
    error, in the order the transport returned them. *)
Theorem sleeps_once_per_conflict (latestUpdate : Z)
    (script : list (Round Message Query Callback)) :
  sleeps (effects (poll_from' latestUpdate script))
  = map (fun _ => MultiWait b) (List.filter conflict (failures script)) /\
  (forall err, conflict err = true <-> contains err conflict_text).
Proof.
  split; [| intros err; apply Index_contains].
  revert latestUpdate. induction script as [| r script IH]; intros c; [reflexivity |].
  destruct (round_cases r) as [Hs | [[err ->] | [updates ->]]].
  - rewrite poll_from_stop by assumption. cbn [failures]. rewrite Hs. reflexivity.
  - rewrite poll_from_failed. cbn [effects failures stop_ready reply List.filter].
    destruct (on_error_sleeps_logs err) as [Hsl _].
    unfold sleeps in *. rewrite !omap_app, Hsl, IH.
    destruct (conflict err); reflexivity.
  - rewrite poll_from_done. cbn [effects failures stop_ready reply].
    destruct (range_updates_no_control messages queries callbacks updates c)
      as (_ & Hsl & _).
    unfold sleeps in *. rewrite !omap_app, Hsl, IH. reflexivity.
Qed.

(** X3: every failed call is logged, once, with its error text, followed
    by the sleep-lock line when the error is a conflict; nothing else is
    ever logged.  No transport error goes unreported and successful
    rounds are silent. *)
Theorem logs_once_per_failure (latestUpdate : Z)
    (script : list (Round Message Query Callback)) :
  logs (effects (poll_from' latestUpdate script))
  = flat_map
      (fun err =>
         ["failed to get updates:"; err]
           :: (if conflict err
               then [["applying sleep-lock for failover instances"]]
               else []))
      (failures script).
Proof.
  revert latestUpdate. induction script as [| r script IH]; intros c; [reflexivity |].
  destruct (round_cases r) as [Hs | [[err ->] | [updates ->]]].
  - rewrite poll_from_stop by assumption. cbn [failures]. rewrite Hs. reflexivity.
  - rewrite poll_from_failed. cbn [effects failures stop_ready reply flat_map].
    destruct (on_error_sleeps_logs err) as [_ Hlog].
    unfold logs in *. rewrite !omap_app, Hlog, IH. reflexivity.
  - rewrite poll_from_done. cbn [effects failures stop_ready reply].
    pose proof (range_updates_no_logs updates c) as Hlog.
    unfold logs in *. rewrite !omap_app, Hlog, IH. reflexivity.
Qed.

(** X5: for a timeout that fits an [int64], the seconds handed to the
    transport are the timeout cut toward zero to whole seconds: they
    differ from it by less than a second, never exceed it in size, and
    are 0 for every timeout shorter than a second (the call then does not
    long-poll at all). *)
Theorem timeout_cut_to_seconds (latestUpdate : Z) :
  Int64.in_range timeout ->
  exists seconds,
    fetch b timeout latestUpdate
    = GetUpdates (Token b) (Int64.add latestUpdate 1) seconds /\
    Z.abs (timeout - seconds * Second) < Second /\
    Z.abs (seconds * Second) <= Z.abs timeout /\
    (Z.abs timeout < Second -> seconds = 0) /\
    (0 <= timeout -> 0 <= seconds).
Proof.
  intros Hrange. exists (timeout `quot` Second).
  unfold fetch. rewrite div_Second_in_range by assumption.
  assert (Hsec : Second = 1000000000) by reflexivity.
  pose proof (Z.quot_rem' timeout Second) as Hqr.
  pose proof (Z.rem_bound_abs timeout Second ltac:(lia)) as Hrem.
  split; [reflexivity |].
  split; [lia |].
  split.
  - destruct (Z.le_gt_cases 0 timeout) as [Hpos | Hneg].
    + pose proof (Z.mul_quot_le timeout Second Hpos ltac:(lia)). lia.
    + pose proof (Z.mul_quot_ge timeout Second ltac:(lia) ltac:(lia)). lia.
  - split.
    + intros Hsmall. apply Z.quot_small_iff; lia.
    + intros Hpos. apply Z.quot_pos; lia.
Qed.

End PollRuns.

(** X4: the loop reads nothing of the bot but [Token] and [MultiWait]:
    two bots that agree on these two fields give the same run, whatever
    their [Identity] and their own channel fields hold.  The sinks are
    the arguments, never [b.Messages], [b.Queries] or [b.Callbacks]. *)
Theorem poll_reads_token_and_multiwait {Message Query Callback : Type}
    (b b' : Bot Message Query Callback)
    (messages : chan Message) (queries : chan Query) (callbacks : chan Callback)
    (timeout latestUpdate : Z) (script : list (Round Message Query Callback)) :
  Token b = Token b' ->
  MultiWait b = MultiWait b' ->
  poll_from b messages queries callbacks timeout latestUpdate script
  = poll_from b' messages queries callbacks timeout latestUpdate script /\
  Listen b messages queries callbacks timeout script
  = Listen b' messages queries callbacks timeout script.
Proof.
  intros Htoken Hwait.
  assert (Hrun : forall c,
             poll_from b messages queries callbacks timeout c script
             = poll_from b' messages queries callbacks timeout c script).
  { induction script as [| r script' IH]; intros c; [reflexivity |].
    destruct (round_cases r) as [Hs | [[err ->] | [updates ->]]].
    - rewrite !poll_from_stop by assumption. reflexivity.
    - rewrite !poll_from_failed, IH. unfold fetch, on_error.
      rewrite Htoken, Hwait. reflexivity.
    - rewrite !poll_from_done, IH. unfold fetch. rewrite Htoken. reflexivity. }
  split; [apply Hrun |].
  unfold Listen, poll. rewrite Hrun. reflexivity.
Qed.

(** Two bots that differ in everything the loop does not read. *)
Lemma poll_reads_token_and_multiwait_witness :
  poll_from sample_bot (chan_ref 0) chan_nil chan_nil (5 * Second) 0
    [mkRound false (Failed "telebot: Conflict: terminated by other long poll or webhook");
     mkRound false (Done [message_update 1 "m1"])]
  = poll_from
      (mkBot (Token sample_bot) (mkUser 5 "other" "" "other")
             (chan_ref 7) (chan_ref 8) (chan_ref 9) (MultiWait sample_bot))
      (chan_ref 0) chan_nil chan_nil (5 * Second) 0
      [mkRound false (Failed "telebot: Conflict: terminated by other long poll or webhook");
       mkRound false (Done [message_update 1 "m1"])].
Proof.
  exact (proj1 (poll_reads_token_and_multiwait sample_bot
                  (mkBot (Token sample_bot) (mkUser 5 "other" "" "other")
                         (chan_ref 7) (chan_ref 8) (chan_ref 9) (MultiWait sample_bot))
                  (chan_ref 0) chan_nil chan_nil (5 * Second) 0 _ eq_refl eq_refl)).
Defined.

(** A timeout of 1.5 s is sent as 1; one of 0.9 s as 0. *)
Lemma timeout_cut_to_seconds_witness :
  (exists seconds,
      fetch sample_bot 1500000000 0
      = GetUpdates (Token sample_bot) (Int64.add 0 1) seconds /\
      Z.abs (1500000000 - seconds * Second) < Second /\
      Z.abs (seconds * Second) <= Z.abs 1500000000 /\
      (Z.abs 1500000000 < Second -> seconds = 0) /\
      (0 <= 1500000000 -> 0 <= seconds)) /\
  fetch sample_bot 1500000000 0 = GetUpdates (Token sample_bot) 1 1 /\
  fetch sample_bot 900000000 0 = GetUpdates (Token sample_bot) 1 0.
Proof.
  split; [| split; reflexivity].
  apply (timeout_cut_to_seconds sample_bot 1500000000 0).
  unfold Int64.in_range, Int64.min_int, Int64.max_int. lia.
Defined.

(** ** Recipients *)

Lemma FormatInt10_inj (m n : Z) : FormatInt10 m = FormatInt10 n -> m = n.
Proof.
  unfold FormatInt10. intros Heq.
  apply (f_equal NilEmpty.int_of_string) in Heq. rewrite !NilEmpty.isi in Heq.
  injection Heq as Heq. apply (f_equal Z.of_int) in Heq.
  rewrite !DecimalZ.of_to in Heq. exact Heq.
Qed.

(** A decimal rendering starts with a digit or a minus sign, never with
    the ["@"] of a channel name. *)
Lemma FormatInt10_not_at (n : Z) (s : string) : FormatInt10 n <> "@" +:+ s.
Proof.
  unfold FormatInt10. intros Heq.
  apply (f_equal NilEmpty.int_of_string) in Heq.
  rewrite NilEmpty.isi, string_app_cons, string_app_nil in Heq.
  cbn in Heq. destruct (NilEmpty.uint_of_string s); discriminate.
Qed.

Lemma FormatInt10_not_empty (n : Z) : FormatInt10 n <> "".
Proof.
  unfold FormatInt10. intros Heq.
  apply (f_equal NilEmpty.int_of_string) in Heq. rewrite NilEmpty.isi in Heq.
  cbn in Heq. injection Heq as Heq.
  pose proof (f_equal Z.of_int Heq) as Hzero. rewrite DecimalZ.of_to in Hzero.
  cbn in Hzero. subst n. discriminate Heq.
Qed.

Lemma Chat_Destination_channel (c : Chat) :
  Chat_Type c = "channel" -> Destination c = "@" +:+ Chat_Username c.
Proof.
  intros Htype. unfold Destination, Chat_Recipient. rewrite Htype. reflexivity.
Qed.

Lemma Chat_Destination_other (c : Chat) :
  Chat_Type c <> "channel" -> Destination c = FormatInt10 (Chat_ID c).
Proof.
  intros Htype. unfold Destination, Chat_Recipient.
  destruct (String.eqb_spec (Chat_Type c) "channel"); [contradiction | reflexivity].
Qed.

(** X6: a chat's destination starts with ["@"] exactly when its type is
    "channel" (then it is ["@"] and the username); otherwise it is the
    decimal identifier.  It is never empty, and two chats have the same
    destination exactly when both are channels with the same username or
    neither is and they have the same identifier. *)
Theorem Chat_Destination_identifies (c1 c2 : Chat) :
  ((exists s, Destination c1 = "@" +:+ s) <-> Chat_Type c1 = "channel") /\
  Destination c1 <> "" /\
  (Destination c1 = Destination c2 <->
   (Chat_Type c1 = "channel" /\ Chat_Type c2 = "channel" /\
    Chat_Username c1 = Chat_Username c2) \/
   (Chat_Type c1 <> "channel" /\ Chat_Type c2 <> "channel" /\ Chat_ID c1 = Chat_ID c2)).
Proof.
  destruct (String.eqb_spec (Chat_Type c1) "channel") as [H1 | H1];
    destruct (String.eqb_spec (Chat_Type c2) "channel") as [H2 | H2];
    rewrite ?(Chat_Destination_channel c1 H1), ?(Chat_Destination_channel c2 H2),
      ?(Chat_Destination_other c1 H1), ?(Chat_Destination_other c2 H2).
  - split; [split; eauto | split; [discriminate |]].
    split; [intros [= Hu]; left; auto |].
    intros [(_ & _ & ->) | (Hn & _)]; [reflexivity | contradiction].
  - split; [split; eauto | split; [discriminate |]].
    split.
    + intros Heq. symmetry in Heq. apply FormatInt10_not_at in Heq. contradiction.
    + intros [(_ & Hc & _) | (Hn & _)]; contradiction.
  - split; [| split; [apply FormatInt10_not_empty |]].
    + split; [intros [s Hs]; apply FormatInt10_not_at in Hs; contradiction | contradiction].
    + split.
      * intros Heq. apply FormatInt10_not_at in Heq. contradiction.
      * intros [(Hc & _) | (_ & Hn & _)]; contradiction.
  - split; [| split; [apply FormatInt10_not_empty |]].
    + split; [intros [s Hs]; apply FormatInt10_not_at in Hs; contradiction | contradiction].
    + split.
      * intros Heq. apply FormatInt10_inj in Heq. right. auto.
      * intros [(Hc & _) | (_ & _ & ->)]; [contradiction | reflexivity].
Qed.

(** X7: users are told apart by their destinations exactly as by their
    identifiers, and a user's destination is that of any chat of the same
    identifier that is not a channel, and of no channel. *)
Theorem User_Destination_identifies (u1 u2 : User) (c : Chat) :
  (Destination u1 = Destination u2 <-> User_ID u1 = User_ID u2) /\
  (Destination u1 = Destination c <->
   Chat_Type c <> "channel" /\ User_ID u1 = Chat_ID c).
Proof.
  split.
  - unfold Destination, User_Recipient, Itoa.
    split; [apply FormatInt10_inj | intros ->; reflexivity].
  - unfold Destination at 1. unfold User_Recipient, Itoa.
    destruct (String.eqb_spec (Chat_Type c) "channel") as [Hc | Hc].
    + rewrite (Chat_Destination_channel c Hc).
      split; [intros Heq; apply FormatInt10_not_at in Heq; contradiction |].
      intros [Hn _]. contradiction.
    + rewrite (Chat_Destination_other c Hc).
      split; [intros Heq; apply FormatInt10_inj in Heq; auto | intros [_ ->]; reflexivity].
Qed.

(** ** More about [SendPhoto] *)

Section SendingMore.

Context {FileRest Message SendOptions Query Callback : Type}.
Variable Exists : File FileRest -> bool.
Variable Message_Photo : Message -> list (Thumbnail FileRest).
Variable embedSendOptions : gmap string string -> SendOptions -> gmap string string.
Variable sendCommand : string -> string -> gmap string string -> result (list Byte.byte).
Variable sendFile :
  string -> string -> string -> string -> gmap string string -> result (list Byte.byte).
Variable Unmarshal : list Byte.byte -> result (PhotoResponse Message).
Variable b : Bot Message Query Callback.

(** X8: however the call ends, [SendPhoto] leaves the photo's [Data],
    [Caption] and [filename] as they were, and whenever it returns an
    error it leaves the whole photo as it was: only a successful call
    touches [photo.File]. *)
Theorem SendPhoto_changes_File_on_success_only {R : Type} `{Recipient R} (recipient : R)
    (photo : Photo FileRest) (options : option SendOptions) :
  match SendPhoto Exists Message_Photo embedSendOptions sendCommand sendFile Unmarshal b
          recipient photo options with
  | Returns (err, photo') =>
      Photo_Data photo' = Photo_Data photo /\
      Photo_Caption photo' = Photo_Caption photo /\
      filename (Photo_File photo') = filename (Photo_File photo) /\
      (err <> None -> photo' = photo)
  | Panics _ => True
  end.
Proof.
  unfold SendPhoto.
  destruct (transport_reply _ _ _ _ _ _ _ _) as [responseJSON | err];
    [| repeat split].
  destruct (Unmarshal responseJSON) as [response | err]; [| repeat split].
  destruct (negb (Ok response)); [repeat split |].
  destruct (slice_index _ _) as [thumb | reason]; [| exact I].
  repeat split. intros Herr. contradiction.
Qed.

(** X9: a photo that exists on the server is sent by [sendCommand]
    with the parameter "photo" equal to its [FileID], whatever the send
    options put into the map (the assignment comes after
    [embedSendOptions]), and is never uploaded; any other photo is
    uploaded by [sendFile] from its [filename], and with nil options the
    upload carries "chat_id" and "caption" and no "photo" parameter. *)
Theorem SendPhoto_request {R : Type} `{Recipient R} (recipient : R)
    (photo : Photo FileRest) (options : option SendOptions) :
  if Exists (Photo_File photo)
  then exists params,
      transport_reply Exists embedSendOptions sendCommand sendFile b recipient photo options
      = sendCommand "sendPhoto" (Token b) params /\
      params !! "photo" = Some (FileID (Photo_File photo))
  else exists params,
      transport_reply Exists embedSendOptions sendCommand sendFile b recipient photo options
      = sendFile "sendPhoto" (Token b) "photo" (filename (Photo_File photo)) params /\
      (options = None ->
       params !! "chat_id" = Some (Destination recipient) /\
       params !! "caption" = Some (Photo_Caption photo) /\
       params !! "photo" = None).
Proof.
  unfold transport_reply. destruct (Exists (Photo_File photo)).
  - eexists. split; [reflexivity |]. apply lookup_insert_eq.
  - eexists. split; [reflexivity |]. intros ->.
    split; [| split]; reflexivity.
Qed.

End SendingMore.

(** ** The request wrappers *)

Section WrapperFacts.

Context {Message Query Callback CallbackId ResponseRest SendOptions : Type}.
Variable b : Bot Message Query Callback.
Variable Message_ID : Message -> Z.
Variable Message_Origin_ID : Message -> Z.
Variable Callback_ID : Callback -> CallbackId.
Variable embedSendOptions : gmap string string -> SendOptions -> gmap string string.
Variable sendCommand :
  string -> string -> Wrappers.Payload CallbackId ResponseRest -> result (list Byte.byte).
Variable Unmarshal_status : list Byte.byte -> result StatusResponse.
Variable Unmarshal_chat : list Byte.byte -> result ChatResponse.

Local Abbreviation reply_error' := (Wrappers.reply_error Unmarshal_status).

Lemma reply_error_None (reply : result (list Byte.byte)) :
  reply_error' reply = None <->
  exists responseJSON response,
    reply = Done responseJSON /\
    Unmarshal_status responseJSON = Done response /\
    Status_Ok response = true.
Proof.
  unfold Wrappers.reply_error. destruct reply as [responseJSON | err].
  - destruct (Unmarshal_status responseJSON) as [response | err] eqn:Hdecode.
    + destruct (Status_Ok response) eqn:Hok; cbn [negb].
      * split; [eauto | reflexivity].
      * split; [discriminate |].
        intros (json & resp & [= <-] & Hd & Hk). congruence.
    + split; [discriminate |]. intros (json & resp & [= <-] & Hd & _). congruence.
  - split; [discriminate |]. intros (json & resp & Hr & _). discriminate.
Qed.

Lemma reply_error_Some (reply : result (list Byte.byte)) (err : error) :
  reply_error' reply = Some err <->
  reply = Failed err \/
  (exists responseJSON, reply = Done responseJSON /\ Unmarshal_status responseJSON = Failed err) \/
  (exists responseJSON response,
      reply = Done responseJSON /\
      Unmarshal_status responseJSON = Done response /\
      Status_Ok response = false /\
      err = "telebot: " +:+ Status_Description response).
Proof.
  unfold Wrappers.reply_error. split.
  - destruct reply as [responseJSON | err']; [| intros [= <-]; left; reflexivity].
    destruct (Unmarshal_status responseJSON) as [response | err'] eqn:Hdecode;
      [| intros [= <-]; right; left; eauto].
    destruct (Status_Ok response) eqn:Hok; cbn [negb]; [discriminate |].
    intros [= <-]. right. right. eauto 6.
  - intros [-> | [(json & -> & Hd) | (json & resp & -> & Hd & Hk & ->)]].
    + reflexivity.
    + rewrite Hd. reflexivity.
    + rewrite Hd, Hk. reflexivity.
Qed.

(** X10: [GetChat] never returns chat data together with an error: on
    every failure the chat is the zero value, also when the refused
    response did decode a chat; and it returns a chat without an error
    exactly when the "getChat" request for the recipient's destination
    was answered, decoded, and marked Ok, the chat being the decoded
    result. *)
Theorem GetChat_returns_chat_or_error {R : Type} `{Recipient R} (recipient : R) :
  (snd (Wrappers.GetChat b sendCommand Unmarshal_chat recipient) = None \/
   fst (Wrappers.GetChat b sendCommand Unmarshal_chat recipient) = zero_Chat) /\
  (forall chat,
      Wrappers.GetChat b sendCommand Unmarshal_chat recipient = (chat, None) <->
      exists responseJSON response,
        sendCommand "getChat" (Token b)
          (Wrappers.string_params (<["chat_id" := Destination recipient]> ∅))
        = Done responseJSON /\
        Unmarshal_chat responseJSON = Done response /\
        ChatResponse_Ok response = true /\
        chat = ChatResponse_Result response) /\
  (forall responseJSON response,
      sendCommand "getChat" (Token b)
        (Wrappers.string_params (<["chat_id" := Destination recipient]> ∅))
      = Done responseJSON ->
      Unmarshal_chat responseJSON = Done response ->
      ChatResponse_Ok response = false ->
      Wrappers.GetChat b sendCommand Unmarshal_chat recipient
      = (zero_Chat,
         Some ("telebot: getChat failure " +:+ ChatResponse_Description response))).
Proof.
  unfold Wrappers.GetChat.
  destruct (sendCommand "getChat" (Token b) _) as [responseJSON | err] eqn:Hreply.
  - destruct (Unmarshal_chat responseJSON) as [response | err] eqn:Hdecode.
    + destruct (ChatResponse_Ok response) eqn:Hok; cbn [negb fst snd].
      * split; [left; reflexivity |]. split.
        -- intros chat. split.
           ++ intros [= <-]. eauto 6.
           ++ intros (json & resp & [= <-] & Hd & _ & ->). congruence.
        -- intros json resp [= <-] Hd Hk. congruence.
      * split; [right; reflexivity |]. split.
        -- intros chat. split; [discriminate |].
           intros (json & resp & [= <-] & Hd & Hk & _). congruence.
        -- intros json resp [= <-] Hd _. congruence.
    + cbn [fst snd]. split; [right; reflexivity |]. split.
      * intros chat. split; [discriminate |].
        intros (json & resp & [= <-] & Hd & _). congruence.
      * intros json resp [= <-] Hd _. congruence.
  - cbn [fst snd]. split; [right; reflexivity |]. split.
    + intros chat. split; [discriminate |]. intros (json & resp & Hr & _). discriminate.
    + intros json resp Hr _ _. discriminate.
Qed.

(** X11: [AnswerCallbackQuery] overwrites the response's [CallbackID]
    with the callback's [ID] before it sends, and leaves the rest of the
    response alone: the request always carries the identifier of the
    callback being answered, the outcome does not depend on the
    identifier the response held before, the caller's response object
    keeps the new identifier also when the call fails, and answering
    again with the returned response sends the same request. *)
Theorem AnswerCallbackQuery_retargets_response (callback : Callback)
    (response : Wrappers.CallbackResponse CallbackId ResponseRest) :
  let out :=
    Wrappers.AnswerCallbackQuery b Callback_ID sendCommand Unmarshal_status
      callback response in
  Wrappers.CallbackID (snd out) = Callback_ID callback /\
  Wrappers.response_rest (snd out) = Wrappers.response_rest response /\
  fst out
  = Wrappers.reply_error Unmarshal_status
      (sendCommand "answerCallbackQuery" (Token b) (Wrappers.response_payload (snd out))) /\
  (forall stale,
      Wrappers.AnswerCallbackQuery b Callback_ID sendCommand Unmarshal_status callback
        (Wrappers.mkCallbackResponse stale (Wrappers.response_rest response))
      = out) /\
  Wrappers.AnswerCallbackQuery b Callback_ID sendCommand Unmarshal_status callback (snd out)
  = out.
Proof. cbv zeta. repeat split. Qed.

(** X12: with nil options, [SendMessage] and [EditMessageText] send
    exactly two parameters, "chat_id" (the recipient's destination) and
    "text" (the message), under the methods "sendMessage" and
    "editMessageText"; in particular [EditMessageText] then carries no
    "message_id". *)
Theorem text_wrappers_send_chat_id_and_text {R : Type} `{Recipient R} (recipient : R)
    (message : string) :
  (forall key,
      Wrappers.text_params embedSendOptions recipient message None !! key
      = if decide (key = "text") then Some message
        else if decide (key = "chat_id") then Some (Destination recipient)
             else None) /\
  Wrappers.text_params embedSendOptions recipient message None !! "message_id" = None /\
  Wrappers.SendMessage b embedSendOptions sendCommand Unmarshal_status recipient message None
  = Wrappers.reply_error Unmarshal_status
      (sendCommand "sendMessage" (Token b)
         (Wrappers.string_params
            (Wrappers.text_params embedSendOptions recipient message None))) /\
  Wrappers.EditMessageText b embedSendOptions sendCommand Unmarshal_status
    recipient message None
  = Wrappers.reply_error Unmarshal_status
      (sendCommand "editMessageText" (Token b)
         (Wrappers.string_params
            (Wrappers.text_params embedSendOptions recipient message None))).
Proof.
  split; [| split; [reflexivity | split; reflexivity]].
  intros key. unfold Wrappers.text_params.
  destruct (decide (key = "text")) as [-> | Htext].
  - apply lookup_insert_eq.
  - rewrite lookup_insert_ne by congruence.
    destruct (decide (key = "chat_id")) as [-> | Hchat].
    + apply lookup_insert_eq.
    + rewrite lookup_insert_ne by congruence. apply lookup_empty.
Qed.

(** X13: the parameters of a "forwardMessage" request determine the
    destination, the message identifier and the origin identifier, and
    nothing else of the message: two requests carry the same parameters
    exactly when they agree on these three. *)
Theorem forward_params_identify_message {R : Type} `{Recipient R} (recipient recipient' : R)
    (message message' : Message) :
  Wrappers.forward_params Message_ID Message_Origin_ID recipient message
  = Wrappers.forward_params Message_ID Message_Origin_ID recipient' message'
  <-> Destination recipient = Destination recipient' /\
      Message_ID message = Message_ID message' /\
      Message_Origin_ID message = Message_Origin_ID message'.
Proof.
  unfold Wrappers.forward_params. split.
  - intros Heq.
    pose proof (f_equal (fun m => m !! "chat_id") Heq) as Hchat.
    pose proof (f_equal (fun m => m !! "from_chat_id") Heq) as Hfrom.
    pose proof (f_equal (fun m => m !! "message_id") Heq) as Hid.
    cbv beta in Hchat, Hfrom, Hid.
    rewrite !lookup_insert_eq in Hid.
    rewrite !(lookup_insert_ne _ "message_id" "from_chat_id") in Hfrom by discriminate.
    rewrite !lookup_insert_eq in Hfrom.
    rewrite !(lookup_insert_ne _ "message_id" "chat_id") in Hchat by discriminate.
    rewrite !(lookup_insert_ne _ "from_chat_id" "chat_id") in Hchat by discriminate.
    rewrite !lookup_insert_eq in Hchat.
    injection Hchat as Hchat. injection Hfrom as Hfrom. injection Hid as Hid.
    unfold Itoa in *. apply FormatInt10_inj in Hfrom. apply FormatInt10_inj in Hid. auto.
  - intros (-> & -> & ->). reflexivity.
Qed.

(** X14: each of the six wrappers that end in the shared response check
    returns nil exactly when its own request (method and payload as
    listed) was answered by the transport, the answer decoded, and the
    response was marked Ok; and the error of such a wrapper is the
    transport's error, or else the decoder's, or else "telebot: "
    followed by the response's description. *)
Theorem wrappers_return_nil_only_on_Ok {R : Type} `{Recipient R} (recipient : R)
    (text : string) (options : option SendOptions) (message : Message)
    (action : ChatAction) (messageId : Z) (callback : Callback)
    (response : Wrappers.CallbackResponse CallbackId ResponseRest) :
  let accepted (method : string) (payload : Wrappers.Payload CallbackId ResponseRest) :=
    exists responseJSON status,
      sendCommand method (Token b) payload = Done responseJSON /\
      Unmarshal_status responseJSON = Done status /\
      Status_Ok status = true in
  (Wrappers.SendMessage b embedSendOptions sendCommand Unmarshal_status
     recipient text options = None
   <-> accepted "sendMessage"
         (Wrappers.string_params (Wrappers.text_params embedSendOptions recipient text options))) /\
  (Wrappers.EditMessageText b embedSendOptions sendCommand Unmarshal_status
     recipient text options = None
   <-> accepted "editMessageText"
         (Wrappers.string_params (Wrappers.text_params embedSendOptions recipient text options))) /\
  (Wrappers.ForwardMessage b Message_ID Message_Origin_ID sendCommand Unmarshal_status
     recipient message = None
   <-> accepted "forwardMessage"
         (Wrappers.string_params
            (Wrappers.forward_params Message_ID Message_Origin_ID recipient message))) /\
  (Wrappers.SendChatAction b sendCommand Unmarshal_status recipient action = None
   <-> accepted "sendChatAction"
         (Wrappers.string_params
            (<["action" := action]> (<["chat_id" := Destination recipient]> ∅)))) /\
  (fst (Wrappers.AnswerCallbackQuery b Callback_ID sendCommand Unmarshal_status
          callback response) = None
   <-> accepted "answerCallbackQuery"
         (Wrappers.response_payload
            (Wrappers.mkCallbackResponse (Callback_ID callback)
               (Wrappers.response_rest response)))) /\
  (Wrappers.DeleteMessage b sendCommand Unmarshal_status recipient messageId = None
   <-> accepted "deleteMessage"
         (Wrappers.any_params
            (<["message_id" := any_int messageId]>
               (<["chat_id" := any_string (Destination recipient)]> ∅)))) /\
  (forall reply err,
      Wrappers.reply_error Unmarshal_status reply = Some err <->
      reply = Failed err \/
      (exists responseJSON,
          reply = Done responseJSON /\ Unmarshal_status responseJSON = Failed err) \/
      (exists responseJSON status,
          reply = Done responseJSON /\
          Unmarshal_status responseJSON = Done status /\
          Status_Ok status = false /\
          err = "telebot: " +:+ Status_Description status)).
Proof.
  cbv zeta.
  repeat (split; [apply reply_error_None |]).
  apply reply_error_Some.
Qed.

End WrapperFacts.
